(** * TheAltText backend: the alt-text generation fallback chain and the
      compliance scorer of [app/services/ai_vision.py]

    A Python [str] is modelled as a [string] whose characters are its code
    points, so the texts of the development are those of code points below
    256.  On these [str.isspace], [str.strip] and [str.lower] act exactly as
    defined below; [str.upper] takes three of these characters out of the
    range (U+00B5 to U+039C, U+00DF to the two letters SS, U+00FF to
    U+0178), so it returns a list of code points, and a text is compared
    with it through its own code points.  The non-ASCII characters of the
    constant messages and prompts are written in their UTF-8 bytes; no
    function of the development looks inside these constants.  The scorer's
    [float] score
    only ever holds 100 minus a sum of whole penalties, so it is kept as an
    exact integer in [Z], on which [round(score, 1)] changes nothing; the
    clock of [time.time()] is read in exact rationals; the per-tier constants (0.5, 2.0, 0.85, 0.92) are
    never computed with and are kept as rationals. *)

From Stdlib Require Import ZArith QArith List Bool Ascii String Lia.
From Stdlib Require Import Numbers.DecimalString.
Import ListNotations.

Open Scope string_scope.
Open Scope Z_scope.

(** ** Python string primitives *)

Module PyStr.

(** [str.isspace] on one character: TAB, LF, VT, FF, CR, the four
    separators FS, GS, RS, US, the space, NEL (U+0085) and the no-break
    space (U+00A0); no other code point below 256 is whitespace. *)
Definition isspace (c : ascii) : bool :=
  let n := nat_of_ascii c in
  ((9 <=? n)%nat && (n <=? 13)%nat) || ((28 <=? n)%nat && (n <=? 32)%nat)
  || (n =? 133)%nat || (n =? 160)%nat.

(** [str.lower] on one character: the letters A to Z and the accented
    capitals U+00C0 to U+00DE, the multiplication sign U+00D7 apart, move up
    by 32; every other code point below 256 stays. *)
Definition lower_char (c : ascii) : ascii :=
  let n := nat_of_ascii c in
  if ((65 <=? n)%nat && (n <=? 90)%nat)
     || ((192 <=? n)%nat && (n <=? 214)%nat)
     || ((216 <=? n)%nat && (n <=? 222)%nat)
  then ascii_of_nat (n + 32) else c.

(** [str.upper] on one character, as code points: the letters a to z and
    the accented small letters U+00E0 to U+00FE, the division sign U+00F7
    apart, move down by 32; the micro sign becomes U+039C, the sharp s the
    two letters SS, and U+00FF becomes U+0178; every other code point below
    256 stays. *)
Definition upper_char (c : ascii) : list N :=
  let n := N_of_ascii c in
  (if (97 <=? n) && (n <=? 122) then [n - 32]
   else if n =? 181 then [924]
   else if n =? 223 then [83; 83]
   else if ((224 <=? n) && (n <=? 246)) || ((248 <=? n) && (n <=? 254))
   then [n - 32]
   else if n =? 255 then [376]
   else [n])%N.

(** The code points of a text. *)
Fixpoint code_points (s : string) : list N :=
  match s with
  | EmptyString => []
  | String c s' => N_of_ascii c :: code_points s'
  end.

(** Equality of two sequences of code points. *)
Fixpoint codes_eqb (a b : list N) : bool :=
  match a, b with
  | [], [] => true
  | x :: a', y :: b' => N.eqb x y && codes_eqb a' b'
  | _, _ => false
  end.

Fixpoint map_chars (f : ascii -> ascii) (s : string) : string :=
  match s with
  | EmptyString => EmptyString
  | String c s' => String (f c) (map_chars f s')
  end.

Definition lower (s : string) : string := map_chars lower_char s.

Fixpoint upper (s : string) : list N :=
  match s with
  | EmptyString => []
  | String c s' => (upper_char c ++ upper s')%list
  end.

(** Truthiness of a [str]: only the empty string is falsy. *)
Definition truthy (s : string) : bool :=
  match s with EmptyString => false | String _ _ => true end.

(** [lstrip], [rstrip] and [strip] over a set of characters given as a
    predicate: leading (trailing) characters in the set are dropped. *)
Fixpoint lstrip_with (p : ascii -> bool) (s : string) : string :=
  match s with
  | EmptyString => EmptyString
  | String c s' => if p c then lstrip_with p s' else s
  end.

Fixpoint rstrip_with (p : ascii -> bool) (s : string) : string :=
  match s with
  | EmptyString => EmptyString
  | String c s' =>
      match rstrip_with p s' with
      | EmptyString => if p c then EmptyString else String c EmptyString
      | r => String c r
      end
  end.

Definition strip_with (p : ascii -> bool) (s : string) : string :=
  rstrip_with p (lstrip_with p s).

(** [s.strip()] *)
Definition strip (s : string) : string := strip_with isspace s.

Fixpoint mem_char (c : ascii) (chars : string) : bool :=
  match chars with
  | EmptyString => false
  | String d chars' => Ascii.eqb c d || mem_char c chars'
  end.

(** [s.strip(chars)] *)
Definition strip_chars (chars s : string) : string :=
  strip_with (fun c => mem_char c chars) s.

(** [s.startswith(p)] *)
Definition startswith (s p : string) : bool := String.prefix p s.

(** [sub in s] *)
Fixpoint contains (sub s : string) : bool :=
  match s with
  | EmptyString => String.prefix sub EmptyString
  | String _ s' => String.prefix sub s || contains sub s'
  end.

(** [s.split(sep)] for a one-character separator: never the empty list. *)
Fixpoint split (sep : ascii) (s : string) : list string :=
  match s with
  | EmptyString => [EmptyString]
  | String c s' =>
      if Ascii.eqb c sep then EmptyString :: split sep s'
      else match split sep s' with
           | [] => [String c EmptyString]
           | x :: xs => String c x :: xs
           end
  end.

(** [str(n)] for a natural number and for an integer. *)
Definition str_of_nat (n : nat) : string := NilZero.string_of_uint (Nat.to_uint n).
Definition str_of_Z (z : Z) : string := NilZero.string_of_int (Z.to_int z).

(** First and last character in a set, used to speak of the characters
    that surround a text. *)
Definition starts_in (p : ascii -> bool) (s : string) : bool :=
  match s with EmptyString => false | String c _ => p c end.

Fixpoint ends_in (p : ascii -> bool) (s : string) : bool :=
  match s with
  | EmptyString => false
  | String c EmptyString => p c
  | String _ s' => ends_in p s'
  end.

Fixpoint all_chars (p : ascii -> bool) (s : string) : bool :=
  match s with
  | EmptyString => true
  | String c s' => p c && all_chars p s'
  end.

End PyStr.

(** The double quote and the apostrophe as one-character strings. *)
Definition DQUOTE : string := String (ascii_of_nat 34) EmptyString.
Definition SQUOTE : string := String (ascii_of_nat 39) EmptyString.

(** ** The compliance scorer: [analyze_existing_alt_text] *)

Module Scorer.
Import PyStr.

Record Assessment : Type := mkAssessment {
  score : Z;
  status : string;
  issues : list string;
  recommendation : string
}.

(** The conditions of the six rules, as the source writes them. *)
Definition redundant_prefix (alt_text : string) : bool :=
  existsb (startswith (lower alt_text)) ["image of"; "picture of"; "photo of"; "img"].

Definition too_short (alt_text : string) : bool := (String.length alt_text <? 10)%nat.

Definition too_long (alt_text : string) : bool := (250 <? String.length alt_text)%nat.

Definition GENERIC_TERMS : list string :=
  ["image"; "photo"; "picture"; "icon"; "logo"; "graphic"; "banner"; "placeholder"].

Definition generic (alt_text : string) : bool :=
  existsb (String.eqb (lower alt_text)) GENERIC_TERMS.

Definition FILE_EXTENSIONS : list string :=
  [".jpg"; ".png"; ".gif"; ".svg"; ".webp"; ".bmp"].

Definition filename (alt_text : string) : bool :=
  existsb (fun ext => contains ext (lower alt_text)) FILE_EXTENSIONS.

Definition all_caps (alt_text : string) : bool :=
  codes_eqb (code_points alt_text) (upper alt_text)
  && (5 <? String.length alt_text)%nat.

(** The issue texts. *)
Definition MSG_MISSING : string := "Alt text is completely missing".
Definition MSG_PREFIX : string :=
  "Starts with redundant prefix (e.g., 'Image of')".
Definition MSG_SHORT (alt_text : string) : string :=
  "Too short (" ++ str_of_nat (String.length alt_text)
    ++ " chars) — may not be descriptive enough".
Definition MSG_LONG (alt_text : string) : string :=
  "Too long (" ++ str_of_nat (String.length alt_text)
    ++ " chars) — consider using longdesc for complex images".
Definition MSG_GENERIC : string := "Generic/non-descriptive alt text".
Definition MSG_FILENAME : string := "Contains filename instead of description".
Definition MSG_CAPS : string :=
  "All uppercase text — poor readability for screen readers".
Definition MSG_OK : string := "Alt text meets basic compliance standards".

Definition REC_MISSING : string :=
  "Add descriptive alt text that conveys the image content and purpose".
Definition REC_OK : string := "Alt text is acceptable".
Definition REC_IMPROVE : string :=
  "Consider improving alt text to better describe the image content".

(** One [if cond: issues.append(msg); score -= penalty] statement, on the
    pair of the two local variables. *)
Definition check (cond : bool) (msg : string) (penalty : Z)
    (st : list string * Z) : list string * Z :=
  if cond then ((fst st ++ [msg])%list, snd st - penalty) else st.

(** The rule statements in source order, from [issues = []], [score = 100.0]. *)
Definition run_rules (alt_text : string) : list string * Z :=
  let st := ([], 100) in
  let st := check (redundant_prefix alt_text) MSG_PREFIX 15 st in
  let st := check (too_short alt_text) (MSG_SHORT alt_text) 25 st in
  let st := check (too_long alt_text) (MSG_LONG alt_text) 10 st in
  let st := check (generic alt_text) MSG_GENERIC 40 st in
  let st := check (filename alt_text) MSG_FILENAME 50 st in
  let st := check (all_caps alt_text) MSG_CAPS 10 st in
  st.

(** [not alt_text or alt_text.strip() == ""] *)
Definition missing (alt_text : string) : bool :=
  negb (truthy alt_text) || String.eqb (strip alt_text) "".

Definition analyze_existing_alt_text
    (alt_text : string) (image_url : option string) (wcag_level : string)
    : Assessment :=
  if missing alt_text then
    {| score := 0; status := "missing";
       issues := [MSG_MISSING]; recommendation := REC_MISSING |}
  else
    let '(issues, score) := run_rules alt_text in
    let score := Z.max 0 score in
    let status :=
      if 80 <=? score then "compliant"
      else if 40 <=? score then "poor" else "non_compliant" in
    {| score := score;
       status := status;
       issues := match issues with [] => [MSG_OK] | _ => issues end;
       recommendation := if 80 <=? score then REC_OK else REC_IMPROVE |}.

End Scorer.

(** ** The generation orchestrator: [generate_alt_text] *)

Module Vision.
Import PyStr.

(** [dict.get(key, default)] on a dictionary with string keys. *)
Fixpoint dict_get {V : Type} (d : list (string * V)) (key : string) (default : V) : V :=
  match d with
  | [] => default
  | (k, v) :: d' => if String.eqb key k then v else dict_get d' key default
  end.

Definition NL : string := String (ascii_of_nat 10) EmptyString.

(** Estimated carbon cost per API call in milligrams CO2. *)
Definition CARBON_COST_PER_CALL : list (string * Q) :=
  [("free", 0.5%Q); ("paid", 2.0%Q)].

Definition TONE_PROMPTS : list (string * string) :=
  [("formal", "Use formal, professional language suitable for corporate or government websites.");
   ("casual", "Use casual, friendly language suitable for blogs and social media.");
   ("technical", "Use precise technical language with specific details about visual elements.");
   ("simple", "Use simple, clear language at a 6th-grade reading level. Avoid jargon.")].

Definition LANGUAGE_INSTRUCTIONS : list (string * string) :=
  [("en", "Respond in English.");
   ("es", "Respond in Spanish (Español).");
   ("fr", "Respond in French (Français).");
   ("de", "Respond in German (Deutsch).");
   ("pt", "Respond in Portuguese (Português).");
   ("ja", "Respond in Japanese (日本語).");
   ("ko", "Respond in Korean (한국어).");
   ("zh", "Respond in Chinese (中文).");
   ("ar", "Respond in Arabic (العربية).");
   ("hi", "Respond in Hindi (हिन्दी).");
   ("it", "Respond in Italian (Italiano).");
   ("nl", "Respond in Dutch (Nederlands).");
   ("ru", "Respond in Russian (Русский).");
   ("haw", "Respond in Hawaiian (ʻŌlelo Hawaiʻi).")].

(** Truthiness of an [Optional[str]]: [None] and the empty string are falsy. *)
Definition supplied (o : option string) : bool :=
  match o with Some s => truthy s | None => false end.

Definition _build_system_prompt
    (language tone wcag_level : string) (context : option string) : string :=
  let lang_instruction :=
    dict_get LANGUAGE_INSTRUCTIONS language
      ("Respond in the language with ISO code: " ++ language ++ ".") in
  let tone_instruction :=
    dict_get TONE_PROMPTS tone (dict_get TONE_PROMPTS "formal" "") in
  "You are TheAltText, an expert accessibility specialist that generates WCAG "
    ++ wcag_level ++ " compliant alt text for images." ++ NL
  ++ NL
  ++ "Your task: Generate a single, concise, descriptive alt text for the provided image." ++ NL
  ++ NL
  ++ "Rules:" ++ NL
  ++ "1. " ++ lang_instruction ++ NL
  ++ "2. " ++ tone_instruction ++ NL
  ++ "3. WCAG " ++ wcag_level ++ " compliance requirements:" ++ NL
  ++ "   - Describe the meaningful content and function of the image" ++ NL
  ++ "   - Keep alt text between 50-150 characters for most images" ++ NL
  ++ "   - For complex images (charts, infographics), provide detailed descriptions up to 250 characters" ++ NL
  ++ "   - Do NOT start with " ++ DQUOTE ++ "Image of" ++ DQUOTE ++ " or "
       ++ DQUOTE ++ "Picture of" ++ DQUOTE ++ " — describe the content directly" ++ NL
  ++ "   - If the image is decorative, respond with exactly: " ++ DQUOTE ++ DQUOTE ++ NL
  ++ "   - Include relevant colors, text, actions, and spatial relationships" ++ NL
  ++ "4. Be specific: " ++ DQUOTE ++ "Golden retriever catching a red frisbee in a park"
       ++ DQUOTE ++ " not " ++ DQUOTE ++ "Dog playing" ++ DQUOTE ++ NL
  ++ "5. Include text visible in the image" ++ NL
  ++ "6. Describe the emotional tone or mood when relevant" ++ NL
  ++ "7. For product images, include key product details" ++ NL
  ++ NL
  ++ (if supplied context
      then "Additional context: " ++ match context with Some c => c | None => "" end
      else "") ++ NL
  ++ NL
  ++ "Respond with ONLY the alt text string. No quotes, no explanation, no prefix.".

(** The fields of [settings] that the service reads. *)
Record Settings : Type := mkSettings {
  OPENROUTER_API_KEY : string;
  OPENROUTER_BASE_URL : string;
  VISION_MODELS_FREE : string;
  VISION_MODELS_PAID : string;
  BRAND_URL : string;
  APP_NAME : string
}.

(** The keyword arguments of [generate_alt_text]. *)
Record Args : Type := mkArgs {
  image_url : option string;
  image_base64 : option string;
  mime_type : string;
  language : string;
  tone : string;
  wcag_level : string;
  context : option string
}.

(** The JSON body and the whole request of one [client.post]. *)
Record Payload : Type := mkPayload {
  model : string;
  system_content : string;
  user_image_url : string;
  user_text : string;
  max_tokens : Z;
  temperature : Q
}.

Record Request : Type := mkRequest {
  url : string;
  headers : list (string * string);
  json : Payload
}.

(** What the path choices, 0, message, content gives on the decoded
    body: the completion text, or the exception that decoding, indexing or
    stripping something that is not a string raises (with its [str(e)]). *)
Inductive Body : Type :=
| Content (text : string)
| Malformed (e : string).

(** What one [await client.post(...)] gives: a response with its status
    code, its raw [text] and its decoded body, or an exception (timeout,
    connection error) with its [str(e)]. *)
Inductive Outcome : Type :=
| Response (status_code : Z) (text : string) (body : Body)
| Raised (e : string).

Inductive Exn : Type :=
| ValueError (msg : string)
| RuntimeError (msg : string).

(** The names the specification gives to the three failures. *)
Definition ConfigurationError : Exn := ValueError "OPENROUTER_API_KEY is not configured".
Definition InputError : Exn := ValueError "Either image_url or image_base64 must be provided".
Definition AllBackendsExhausted (last_error : option string) : Exn :=
  RuntimeError ("All vision models failed. Last error: "
                ++ match last_error with Some e => e | None => "None" end).

(** The returned tuple
    [(alt_text, model_used, confidence_score, carbon_cost_mg, processing_time_ms)]. *)
Record Generated : Type := mkGenerated {
  alt_text : string;
  model_used : string;
  confidence : Q;
  carbon_cost : Q;
  processing_time : Z
}.

(** [int(x)] on a rational: truncation towards zero. *)
Definition int_of_Q (x : Q) : Z := Z.quot (Qnum x) (Zpos (Qden x)).

(** The list of [m.strip()] for the pieces [m] of [s] between commas whose
    [m.strip()] is not empty. *)
Definition model_list (s : string) : list string :=
  map strip (filter (fun m => truthy (strip m)) (split "," s)).

Definition all_models (settings : Settings) : list (string * string) :=
  (map (fun m => (m, "free")) (model_list (VISION_MODELS_FREE settings))
   ++ map (fun m => (m, "paid")) (model_list (VISION_MODELS_PAID settings)))%list.

(** The clean-up of quotes: [strip] of the double quote, then [strip] of
    the apostrophe. *)
Definition strip_quotes (s : string) : string :=
  strip_chars SQUOTE (strip_chars DQUOTE s).

(** The two clean-up statements applied to the completion text. *)
Definition clean_up (content : string) : string :=
  let alt_text := strip content in
  let alt_text := strip_quotes alt_text in
  alt_text.

(** The URL put in the image part of the user message: the given URL, else
    a data URL around the inline bytes, else nothing. *)
Definition image_content (a : Args) : option string :=
  if supplied (image_url a) then
    Some (match image_url a with Some u => u | None => "" end)
  else if supplied (image_base64 a) then
    Some ("data:" ++ mime_type a ++ ";base64,"
          ++ match image_base64 a with Some b => b | None => "" end)
  else None.

Section Backend.

(** The outside world: the clock read by [time.time()] (in seconds) and the
    inference gateway behind [client.post], which answers a request and
    moves the world on. *)
Variable World : Type.
Variable time_time : World -> Q.
Variable post : Request -> World -> Outcome * World.

Variable settings : Settings.

Definition request (system_prompt image : string) (model_name : string) : Request :=
  {| url := OPENROUTER_BASE_URL settings ++ "/chat/completions";
     headers :=
       [("Authorization", "Bearer " ++ OPENROUTER_API_KEY settings);
        ("Content-Type", "application/json");
        ("HTTP-Referer", BRAND_URL settings);
        ("X-Title", APP_NAME settings)];
     json := {| model := model_name;
                system_content := system_prompt;
                user_image_url := image;
                user_text := "Generate WCAG-compliant alt text for this image.";
                max_tokens := 300;
                temperature := 0.3%Q |} |}.

(** The [for model_name, tier in all_models] loop.  [last_error] is the
    local variable of that name; [tried] collects, in order, the attempts
    announced by the loop's first log line, one per [client.post]. *)
Fixpoint try_models (system_prompt image : string)
    (models : list (string * string)) (last_error : option string)
    (tried : list (string * string)) (w : World)
    : (Exn + Generated) * list (string * string) * World :=
  match models with
  | [] => (inl (AllBackendsExhausted last_error), tried, w)
  | (model_name, tier) :: rest =>
      let start_time := time_time w in
      let tried := (tried ++ [(model_name, tier)])%list in
      let '(outcome, w) := post (request system_prompt image model_name) w in
      match outcome with
      | Response status_code text body =>
          if status_code =? 200 then
            match body with
            | Content content =>
                let alt_text := clean_up content in
                let processing_time :=
                  int_of_Q ((time_time w - start_time) * 1000)%Q in
                let carbon_cost := dict_get CARBON_COST_PER_CALL tier 1.0%Q in
                let confidence :=
                  if String.eqb tier "paid" then 0.92%Q else 0.85%Q in
                (inr (mkGenerated alt_text model_name confidence carbon_cost
                        processing_time), tried, w)
            | Malformed e =>
                try_models system_prompt image rest (Some e) tried w
            end
          else if status_code =? 429 then
            try_models system_prompt image rest
              (Some ("Rate limited: " ++ text)) tried w
          else
            try_models system_prompt image rest
              (Some (str_of_Z status_code ++ ": " ++ text)) tried w
      | Raised e => try_models system_prompt image rest (Some e) tried w
      end
  end.

Definition generate_alt_text (a : Args) (w : World)
    : (Exn + Generated) * list (string * string) * World :=
  if negb (truthy (OPENROUTER_API_KEY settings)) then
    (inl ConfigurationError, [], w)
  else
    let system_prompt :=
      _build_system_prompt (language a) (tone a) (wcag_level a) (context a) in
    match image_content a with
    | None => (inl InputError, [], w)
    | Some image =>
        try_models system_prompt image (all_models settings) None [] w
    end.

(** An attempt is accepted when its response has status 200 and a body
    that yields a completion text; [accepted] gives that text. *)
Definition accepted (o : Outcome) : option string :=
  match o with
  | Response 200 _ (Content content) => Some content
  | _ => None
  end.

(** [skips sp img pre w w']: from world [w], every candidate of [pre] is
    posted to in turn and none is accepted, which leaves the world [w']. *)
Inductive skips (system_prompt image : string)
    : list (string * string) -> World -> World -> Prop :=
| skips_nil : forall w, skips system_prompt image [] w w
| skips_cons : forall model_name tier rest w o w1 w2,
    post (request system_prompt image model_name) w = (o, w1) ->
    accepted o = None ->
    skips system_prompt image rest w1 w2 ->
    skips system_prompt image ((model_name, tier) :: rest) w w2.

End Backend.

End Vision.

(** ** Notions used in the statements *)

Module Notions.
Import PyStr Scorer Vision.

(** A text is blank when it is empty or made of whitespace only. *)
Definition blank (text : string) : bool := all_chars isspace text.

(** A text is surrounded by characters of [chars] when its first or its
    last character is one of them. *)
Definition surrounded_by (chars s : string) : bool :=
  starts_in (fun c => mem_char c chars) s || ends_in (fun c => mem_char c chars) s.

Definition QUOTES : string := DQUOTE ++ SQUOTE.

(** The penalty a rule contributes. *)
Definition pen (cond : bool) (penalty : Z) : Z := if cond then penalty else 0.

(** The sum of the penalties of the rules whose condition holds. *)
Definition penalties (alt_text : string) : Z :=
  pen (redundant_prefix alt_text) 15 + pen (too_short alt_text) 25
  + pen (too_long alt_text) 10 + pen (generic alt_text) 40
  + pen (filename alt_text) 50 + pen (all_caps alt_text) 10.

Definition say (cond : bool) (msg : string) : list string :=
  if cond then [msg] else [].

(** The issues of the rules whose condition holds, in rule order. *)
Definition fired (alt_text : string) : list string :=
  (say (redundant_prefix alt_text) MSG_PREFIX
   ++ say (too_short alt_text) (MSG_SHORT alt_text)
   ++ say (too_long alt_text) (MSG_LONG alt_text)
   ++ say (generic alt_text) MSG_GENERIC
   ++ say (filename alt_text) MSG_FILENAME
   ++ say (all_caps alt_text) MSG_CAPS)%list.

(** The generic-term condition as the specification words it: the trimmed
    text, compared without regard to case. *)
Definition generic_trimmed (alt_text : string) : bool :=
  existsb (String.eqb (lower (strip alt_text))) GENERIC_TERMS.


End Notions.

(** ** A small concrete world, to run the orchestrator on

    The world is the clock reading in seconds.  The gateway answers by the
    model name of the request: model [A] is unavailable, model [B] and model
    [C] answer with a completion, model [created] answers 201 with a
    well-formed body, model [limited] is rate limited, and any other model
    times out. *)

Module Demo.
Import PyStr Vision.

Definition World : Type := Q.

Definition time_time (w : World) : Q := w.

Definition post (r : Request) (w : World) : Outcome * World :=
  let name := model (json r) in
  if String.eqb name "A" then
    (Response 503 "unavailable" (Malformed "Expecting value"), (w + 2)%Q)
  else if String.eqb name "B" then
    (Response 200 "{...}" (Content " 'A red kite over a field' "), (w + 1.25)%Q)
  else if String.eqb name "C" then
    (Response 200 "{...}" (Content "A kite"), (w + 3)%Q)
  else if String.eqb name "created" then
    (Response 201 "{...}" (Content "A red kite"), (w + 1)%Q)
  else if String.eqb name "limited" then
    (Response 429 "slow down" (Malformed "Expecting value"), (w + 0.5)%Q)
  else (Raised "timed out", (w + 60)%Q).

Definition settings_of (free paid : string) : Settings :=
  {| OPENROUTER_API_KEY := "sk-test";
     OPENROUTER_BASE_URL := "https://openrouter.ai/api/v1";
     VISION_MODELS_FREE := free;
     VISION_MODELS_PAID := paid;
     BRAND_URL := "https://thealttext.com";
     APP_NAME := "TheAltText" |}.

Definition args_of (image_url image_base64 : option string) : Args :=
  {| image_url := image_url;
     image_base64 := image_base64;
     mime_type := "image/jpeg";
     language := "en";
     tone := "formal";
     wcag_level := "AAA";
     context := None |}.

Definition run (free paid : string) (image_url image_base64 : option string)
    : (Exn + Generated) * list (string * string) * World :=
  generate_alt_text World time_time post (settings_of free paid)
    (args_of image_url image_base64) 0%Q.

End Demo.

(** ** Further string primitives *)

Module PyMore.
Import PyStr.

(** [sep.join(parts)] *)
Fixpoint join (sep : string) (parts : list string) : string :=
  match parts with
  | [] => EmptyString
  | [x] => x
  | x :: rest => x ++ sep ++ join sep rest
  end.

(** [x or default] on an [Optional[str]]. *)
Definition or_else (x : option string) (default : string) : string :=
  match x with
  | Some s => if truthy s then s else default
  | None => default
  end.

End PyMore.

(** ** What a rejected attempt leaves in [last_error] *)

Module Failure.
Import PyStr Vision.

(** The value the loop of [generate_alt_text] assigns to [last_error] on
    an attempt that is not accepted, branch by branch. *)
Definition detail (o : Outcome) : string :=
  match o with
  | Response status_code text body =>
      if status_code =? 200 then
        match body with Malformed e => e | Content _ => EmptyString end
      else if status_code =? 429 then "Rate limited: " ++ text
      else str_of_Z status_code ++ ": " ++ text
  | Raised e => e
  end.

(** [str(e)] of the two exceptions the service raises. *)
Definition str_of_exn (e : Exn) : string :=
  match e with ValueError msg => msg | RuntimeError msg => msg end.

End Failure.

(** ** The e-commerce route: [app/api/routes/ecommerce.py]

    The three scores of this route are floats that only ever hold whole
    numbers (50.0 plus whole bonuses, 85.0, 50.0, 0.0); they are kept in
    [Z]. *)

Module Ecommerce.
Import PyStr PyMore Vision Failure.

Definition _seo_optimize_alt (alt_text product_name category : string) : string :=
  let seo_parts := [] in
  let seo_parts :=
    if negb (contains (lower product_name) (lower alt_text))
    then (seo_parts ++ [product_name])%list else seo_parts in
  let seo_parts := (seo_parts ++ [alt_text])%list in
  let seo_parts :=
    if negb (contains (lower category) (lower alt_text))
       && negb (String.eqb category "General")
    then (seo_parts ++ [("in " ++ category)%string])%list else seo_parts in
  join " - " seo_parts.

Definition _calculate_seo_score (alt_text product_name category : string) : Z :=
  let score := 50 in
  let score :=
    if truthy alt_text && (20 <? String.length alt_text)%nat
    then score + 10 else score in
  let score :=
    if contains (lower product_name) (lower alt_text) then score + 15 else score in
  let score :=
    if contains (lower category) (lower alt_text) then score + 10 else score in
  let score :=
    if (String.length alt_text <=? 125)%nat then score + 5 else score in
  let score :=
    if negb (existsb (startswith alt_text) ["image"; "photo"; "picture"])
    then score + 10 else score in
  Z.min 100 score.

Record ProductImage : Type := mkProductImage {
  id : Z;
  product_image_url : string;
  current_alt : option string;
  generated_alt : option string;
  seo_optimized_alt : option string;
  wcag_score : Z;
  seo_score : Z
}.

(** The keyword arguments [add_product] passes to [generate_alt_text]. *)
Definition product_args (url : string) : Args :=
  {| image_url := Some url;
     image_base64 := None;
     mime_type := "image/jpeg";
     language := "en";
     tone := "formal";
     wcag_level := "AAA";
     context := None |}.

Section Products.

Variable World : Type.
Variable time_time : World -> Q.
Variable post : Request -> World -> Outcome * World.
Variable settings : Settings.

(** The loop [for idx, url in enumerate(request.image_urls)] of
    [add_product], from index [idx] on, with the images collected so far. *)
Fixpoint product_images (product_id : Z) (product_name category : string)
    (image_urls : list string) (idx : nat) (images : list ProductImage)
    (w : World) : list ProductImage * World :=
  match image_urls with
  | [] => (images, w)
  | url :: rest =>
      let '(result, _, w) :=
        generate_alt_text World time_time post settings (product_args url) w in
      let '(alt_text, seo_alt, wcag_score, seo_score) :=
        match result with
        | inr g =>
            let alt_text := Vision.alt_text g in
            let seo_alt := _seo_optimize_alt alt_text product_name category in
            let wcag_score :=
              if (20 <? String.length alt_text)%nat then 85 else 50 in
            let seo_score := _calculate_seo_score seo_alt product_name category in
            (Some alt_text, Some seo_alt, wcag_score, seo_score)
        | inl _ => (None, None, 0, 0)
        end in
      let images :=
        (images ++ [{| id := product_id * 100 + Z.of_nat idx;
                       product_image_url := url;
                       current_alt := None;
                       generated_alt := alt_text;
                       seo_optimized_alt := seo_alt;
                       wcag_score := wcag_score;
                       seo_score := seo_score |}])%list in
      product_images product_id product_name category rest (S idx) images w
  end.

End Products.

End Ecommerce.

(** ** The competitor route: [app/api/routes/competitor.py] *)

Module Competitor.
Import PyStr Scorer.

Record CompetitorImageResult : Type := mkCompetitorImageResult {
  competitor_image_url : string;
  existing_alt : option string;
  has_alt : bool;
  quality_score : Z;
  image_issues : list string
}.

(** The body of the loop over the scanned images in [_analyze_site_images],
    for one image with source [src] and [alt] attribute [alt] ([None] when
    the scan recorded no attribute). *)
Definition image_result (src : string) (alt : option string)
    : CompetitorImageResult :=
  let has_alt :=
    match alt with
    | Some a => truthy a && truthy (strip a)
    | None => false
    end in
  let '(quality_score, issues) :=
    if has_alt then
      let analysis :=
        analyze_existing_alt_text
          (match alt with Some a => a | None => EmptyString end) None "AAA" in
      (score analysis, issues analysis)
    else (0, ["Alt text is completely missing"]) in
  {| competitor_image_url := src;
     existing_alt := if has_alt then alt else None;
     has_alt := has_alt;
     quality_score := quality_score;
     image_issues := issues |}.

End Competitor.

(** ** The bulk route: [app/api/routes/bulk.py] *)

Module Bulk.
Import PyStr PyMore Scorer Vision Failure.

(** An uploaded file: its name, its content type, and what [await
    file.read()] gives: the bytes, or an exception with its [str(e)]. *)
Record UploadFile : Type := mkUploadFile {
  filename : option string;
  content_type : option string;
  read : string + string
}.

Record User : Type := mkUser {
  tier : string;
  monthly_usage : Z
}.

(** The two fields of [settings] that the route reads. *)
Record Limits : Type := mkLimits {
  BULK_MAX_IMAGES : Z;
  FREE_TIER_MONTHLY_LIMIT : Z
}.

Record HTTPException : Type := mkHTTPException {
  status_code : Z;
  detail : string
}.

Record BulkJobItemResult : Type := mkBulkJobItemResult {
  image_index : Z;
  file_name : string;
  item_alt_text : option string;
  item_confidence : option Q;
  item_wcag_score : option Z;
  error : option string;
  processing_time_ms : option Z
}.

(** The checks of [start_bulk_processing] before any file is read: the size
    of the batch, then the monthly quota of a free-tier user. *)
Definition check_limits (limits : Limits) (current_user : User)
    (files : list UploadFile) : option HTTPException :=
  let n := Z.of_nat (List.length files) in
  if BULK_MAX_IMAGES limits <? n then
    Some {| status_code := 400;
            detail := "Maximum " ++ str_of_Z (BULK_MAX_IMAGES limits)
                      ++ " images per batch" |}
  else if String.eqb (tier current_user) "free" then
    let remaining := FREE_TIER_MONTHLY_LIMIT limits - monthly_usage current_user in
    if remaining <=? 0 then
      Some {| status_code := 429;
              detail := "Monthly limit reached. Upgrade for bulk processing." |}
    else if remaining <? n then
      Some {| status_code := 429;
              detail := "Only " ++ str_of_Z remaining
                        ++ " images remaining in your monthly quota." |}
    else None
  else None.

Section Processing.

Variable World : Type.
Variable time_time : World -> Q.
Variable post : Request -> World -> Outcome * World.
Variable settings : Settings.

(** [base64.b64encode(content).decode()] *)
Variable b64encode : string -> string.

(** The keyword arguments the loop passes to [generate_alt_text] for a file
    with the given bytes: the data URL goes in as [image_base64]. *)
Definition file_args (file : UploadFile) (content language tone wcag_level : string)
    : Args :=
  let b64 := b64encode content in
  let mime := or_else (content_type file) "image/jpeg" in
  let data_url := "data:" ++ mime ++ ";base64," ++ b64 in
  {| image_url := None;
     image_base64 := Some data_url;
     mime_type := "image/jpeg";
     language := language;
     tone := tone;
     wcag_level := wcag_level;
     context := None |}.

Definition failed_item (idx : nat) (file : UploadFile) (e : string)
    : BulkJobItemResult :=
  {| image_index := Z.of_nat idx;
     file_name := or_else (filename file) ("image_" ++ str_of_nat idx);
     item_alt_text := None;
     item_confidence := None;
     item_wcag_score := None;
     error := Some e;
     processing_time_ms := None |}.

(** The loop [for idx, file in enumerate(files)], from index [idx] on, on
    the local variables [results] and [errors] and the user record. *)
Fixpoint process_files (files : list UploadFile)
    (language tone wcag_level : string) (idx : nat)
    (results : list BulkJobItemResult) (errors : Z) (current_user : User)
    (w : World) : list BulkJobItemResult * Z * User * World :=
  match files with
  | [] => (results, errors, current_user, w)
  | file :: rest =>
      match read file with
      | inl e =>
          process_files rest language tone wcag_level (S idx)
            (results ++ [failed_item idx file e])%list (errors + 1)
            current_user w
      | inr content =>
          let '(generated, _, w) :=
            generate_alt_text World time_time post settings
              (file_args file content language tone wcag_level) w in
          match generated with
          | inl e =>
              process_files rest language tone wcag_level (S idx)
                (results ++ [failed_item idx file (str_of_exn e)])%list
                (errors + 1) current_user w
          | inr g =>
              let wcag_result :=
                analyze_existing_alt_text (alt_text g) None wcag_level in
              let item :=
                {| image_index := Z.of_nat idx;
                   file_name := or_else (filename file) ("image_" ++ str_of_nat idx);
                   item_alt_text := Some (alt_text g);
                   item_confidence := Some (confidence g);
                   item_wcag_score := Some (score wcag_result);
                   error := None;
                   processing_time_ms := Some (processing_time g) |} in
              process_files rest language tone wcag_level (S idx)
                (results ++ [item])%list errors
                {| tier := tier current_user;
                   monthly_usage := monthly_usage current_user + 1 |} w
          end
      end
  end.

(** [start_bulk_processing] from its first statement to the end of its
    loop: the refusal, or the results, the error count, the user record and
    the world as the loop leaves them.  The flush, the job identifier and
    the job store that follow are outside this model. *)
Definition start_bulk_processing (limits : Limits) (files : list UploadFile)
    (language tone wcag_level : string) (current_user : User) (w : World)
    : (HTTPException + list BulkJobItemResult * Z) * User * World :=
  match check_limits limits current_user files with
  | Some e => (inl e, current_user, w)
  | None =>
      let '(results, errors, current_user, w) :=
        process_files files language tone wcag_level 0 [] 0 current_user w in
      (inr (results, errors), current_user, w)
  end.

End Processing.

End Bulk.

(** ** Notions used in the further statements *)

Module MoreNotions.
Import PyStr PyMore Scorer Vision Notions Bulk.

(** A whitespace character or one of the two quote characters. *)
Definition space_or_quote (c : ascii) : bool := isspace c || mem_char c QUOTES.

(** A text without any comma. *)
Definition comma_free (s : string) : bool :=
  all_chars (fun c => negb (Ascii.eqb c ",")) s.

(** A model name as a configuration list can carry it: not empty, no
    whitespace at either end, no comma. *)
Definition model_name_ok (m : string) : bool :=
  truthy m && negb (starts_in isspace m) && negb (ends_in isspace m)
  && comma_free m.

(** A bulk item that reports an error. *)
Definition is_error (r : BulkJobItemResult) : bool :=
  match error r with Some _ => true | None => false end.

(** A bulk item is well formed when it is either a pure error or a
    complete result with a score between 0 and 100. *)
Definition item_ok (wcag_level : string) (r : BulkJobItemResult) : Prop :=
  match error r with
  | Some _ =>
      item_alt_text r = None /\ item_confidence r = None
      /\ item_wcag_score r = None /\ processing_time_ms r = None
  | None =>
      exists text c sc t,
        item_alt_text r = Some text /\ item_confidence r = Some c
        /\ item_wcag_score r = Some sc /\ processing_time_ms r = Some t
        /\ sc = score (analyze_existing_alt_text text None wcag_level)
        /\ 0 <= sc <= 100
  end.

(** A product image is well formed when it is either a failed generation,
    with no alt text and both scores 0, or a generated one, with its
    optimised alt text, a WCAG score of 85 or 50 and an SEO score between 65
    and 100. *)
Definition product_image_ok (product_name category : string)
    (i : Ecommerce.ProductImage) : Prop :=
  (Ecommerce.generated_alt i = None /\ Ecommerce.seo_optimized_alt i = None
   /\ Ecommerce.wcag_score i = 0 /\ Ecommerce.seo_score i = 0)
  \/ (exists alt,
        Ecommerce.generated_alt i = Some alt
        /\ Ecommerce.seo_optimized_alt i
           = Some (Ecommerce._seo_optimize_alt alt product_name category)
        /\ (Ecommerce.wcag_score i = 85 \/ Ecommerce.wcag_score i = 50)
        /\ 65 <= Ecommerce.seo_score i <= 100).

End MoreNotions.

(** ** Sample inputs of the routes, in the concrete world *)

Module DemoRoutes.
Import PyStr Vision Bulk.

(** A stand-in for the base64 encoder. *)
Definition b64 (content : string) : string := "QUJD" ++ content.

Definition png (name : string) : UploadFile :=
  {| filename := Some name; content_type := Some "image/png"; read := inr "ABC" |}.


Definition limits : Limits :=
  {| BULK_MAX_IMAGES := 100; FREE_TIER_MONTHLY_LIMIT := 50 |}.

Definition free_user (used : Z) : User := {| tier := "free"; monthly_usage := used |}.

Definition bulk (free paid : string) (files : list UploadFile) (u : User) :=
  start_bulk_processing Demo.World Demo.time_time Demo.post
    (Demo.settings_of free paid) b64 limits files "en" "formal" "AAA" u 0%Q.

End DemoRoutes.

(** * Properties *)

Import PyStr Scorer Vision Notions.

(** ** Stripping *)

Section StripFacts.

Variable p : ascii -> bool.

Lemma all_chars_lstrip (s : string) :
  all_chars p (lstrip_with p s) = all_chars p s.
Proof.
  induction s as [|c s IH]; simpl; [reflexivity|].
  destruct (p c) eqn:Hc; simpl; [exact IH | now rewrite Hc].
Qed.

Lemma rstrip_empty_iff (s : string) :
  rstrip_with p s = EmptyString <-> all_chars p s = true.
Proof.
  induction s as [|c s IH]; simpl; [tauto|].
  destruct (rstrip_with p s) eqn:Hr.
  - destruct (p c); simpl.
    + split; intros _; [now apply IH | reflexivity].
    + split; discriminate.
  - split; [discriminate|].
    intros H. apply andb_true_iff in H as [_ H].
    apply IH in H. discriminate.
Qed.

Lemma strip_empty_iff (s : string) :
  strip_with p s = EmptyString <-> all_chars p s = true.
Proof.
  unfold strip_with. rewrite rstrip_empty_iff. now rewrite all_chars_lstrip.
Qed.

Lemma lstrip_fixed (s : string) :
  starts_in p s = false -> lstrip_with p s = s.
Proof. destruct s as [|c s]; simpl; [reflexivity|]. now intros ->. Qed.

Lemma rstrip_fixed (s : string) :
  ends_in p s = false -> rstrip_with p s = s.
Proof.
  induction s as [|c s IH]; simpl; [reflexivity|].
  destruct s as [|d s]; simpl in *.
  - now intros ->.
  - intros H. now rewrite (IH H).
Qed.

Lemma starts_in_lstrip (s : string) : starts_in p (lstrip_with p s) = false.
Proof.
  induction s as [|c s IH]; simpl; [reflexivity|].
  destruct (p c) eqn:Hc; simpl; [exact IH | exact Hc].
Qed.

Lemma ends_in_rstrip (s : string) : ends_in p (rstrip_with p s) = false.
Proof.
  induction s as [|c s IH]; simpl; [reflexivity|].
  destruct (rstrip_with p s) as [|d r] eqn:Hr.
  - destruct (p c) eqn:Hc; simpl; [reflexivity | exact Hc].
  - exact IH.
Qed.

Lemma starts_in_rstrip (s : string) :
  starts_in p s = false -> starts_in p (rstrip_with p s) = false.
Proof.
  destruct s as [|c s]; simpl; [reflexivity|].
  intros Hc. destruct (rstrip_with p s); [rewrite Hc|]; simpl; auto.
Qed.

Lemma strip_fixed (s : string) :
  starts_in p s = false -> ends_in p s = false -> strip_with p s = s.
Proof.
  intros Hs He. unfold strip_with. rewrite (lstrip_fixed s Hs).
  now apply rstrip_fixed.
Qed.

Lemma strip_not_surrounded (s : string) :
  starts_in p (strip_with p s) = false /\ ends_in p (strip_with p s) = false.
Proof.
  unfold strip_with. split.
  - apply starts_in_rstrip, starts_in_lstrip.
  - apply ends_in_rstrip.
Qed.

Lemma strip_fixed_iff (s : string) :
  strip_with p s = s <-> starts_in p s = false /\ ends_in p s = false.
Proof.
  split.
  - intros H. rewrite <- H. apply strip_not_surrounded.
  - intros [Hs He]. now apply strip_fixed.
Qed.

Lemma lstrip_length (s : string) :
  (String.length (lstrip_with p s) <= String.length s)%nat.
Proof.
  induction s as [|c s IH]; simpl; [lia|].
  destruct (p c); simpl; lia.
Qed.

Lemma rstrip_length (s : string) :
  (String.length (rstrip_with p s) <= String.length s)%nat.
Proof.
  induction s as [|c s IH]; simpl; [lia|].
  destruct (rstrip_with p s); [destruct (p c)|]; simpl in *; lia.
Qed.

Lemma strip_length (s : string) :
  (String.length (strip_with p s) <= String.length s)%nat.
Proof.
  unfold strip_with.
  pose proof (rstrip_length (lstrip_with p s)). pose proof (lstrip_length s). lia.
Qed.

Lemma lstrip_same_length (s : string) :
  String.length (lstrip_with p s) = String.length s -> lstrip_with p s = s.
Proof.
  destruct s as [|c s]; simpl; [reflexivity|].
  destruct (p c); [|reflexivity].
  pose proof (lstrip_length s). lia.
Qed.

Lemma rstrip_same_length (s : string) :
  String.length (rstrip_with p s) = String.length s -> rstrip_with p s = s.
Proof.
  induction s as [|c s IH]; simpl; [reflexivity|].
  pose proof (rstrip_length s) as Hl.
  destruct (rstrip_with p s) as [|d r] eqn:Hr.
  - destruct (p c); simpl in *; intros H.
    + lia.
    + destruct s; simpl in *; [reflexivity | lia].
  - simpl in *. intros H. rewrite IH; [reflexivity | lia].
Qed.

Lemma strip_same_length (s : string) :
  String.length (strip_with p s) = String.length s -> strip_with p s = s.
Proof.
  unfold strip_with. intros H.
  pose proof (rstrip_length (lstrip_with p s)) as H1.
  pose proof (lstrip_length s) as H2.
  assert (Hl : lstrip_with p s = s) by (apply lstrip_same_length; lia).
  rewrite Hl in *. now apply rstrip_same_length.
Qed.

End StripFacts.

Lemma starts_in_weaken (p q : ascii -> bool) (s : string) :
  (forall c, q c = true -> p c = true) ->
  starts_in p s = false -> starts_in q s = false.
Proof.
  intros Hqp. destruct s as [|c s]; simpl; [reflexivity|].
  intros Hp. destruct (q c) eqn:Hq; [|reflexivity].
  apply Hqp in Hq. congruence.
Qed.

Lemma ends_in_weaken (p q : ascii -> bool) (s : string) :
  (forall c, q c = true -> p c = true) ->
  ends_in p s = false -> ends_in q s = false.
Proof.
  intros Hqp. induction s as [|c s IH]; simpl; [reflexivity|].
  destruct s as [|d s].
  - intros Hp. destruct (q c) eqn:Hq; [|reflexivity].
    apply Hqp in Hq. congruence.
  - exact IH.
Qed.

Lemma surrounded_by_false (chars s : string) :
  surrounded_by chars s = false <->
  starts_in (fun c => mem_char c chars) s = false
  /\ ends_in (fun c => mem_char c chars) s = false.
Proof. unfold surrounded_by. apply orb_false_iff. Qed.

Lemma strip_chars_fixed_iff (chars s : string) :
  strip_chars chars s = s <-> surrounded_by chars s = false.
Proof.
  unfold strip_chars. rewrite strip_fixed_iff. symmetry. apply surrounded_by_false.
Qed.

Lemma strip_chars_not_surrounded (chars s : string) :
  surrounded_by chars (strip_chars chars s) = false.
Proof. apply surrounded_by_false, strip_not_surrounded. Qed.

Lemma surrounded_by_quotes_split (s : string) :
  surrounded_by QUOTES s = false ->
  surrounded_by DQUOTE s = false /\ surrounded_by SQUOTE s = false.
Proof.
  intros H. apply surrounded_by_false in H as [Hs He].
  split; apply surrounded_by_false; split;
    first [ eapply starts_in_weaken; [|exact Hs]
          | eapply ends_in_weaken; [|exact He] ];
    intros c; unfold QUOTES, DQUOTE, SQUOTE; simpl;
    destruct (Ascii.eqb c (ascii_of_nat 34)), (Ascii.eqb c (ascii_of_nat 39));
    simpl; auto.
Qed.

Lemma missing_blank (text : string) : missing text = blank text.
Proof.
  unfold missing, blank.
  destruct (all_chars isspace text) eqn:Hb.
  - apply (strip_empty_iff isspace) in Hb. unfold strip. rewrite Hb.
    now rewrite orb_true_r.
  - destruct text as [|c s]; [discriminate|]. simpl negb. simpl orb.
    destruct (String.eqb (strip (String c s)) "") eqn:He; [|reflexivity].
    apply String.eqb_eq in He. apply (strip_empty_iff isspace) in He. congruence.
Qed.

(** ** The scorer *)

Lemma penalties_nonneg (text : string) : 0 <= penalties text.
Proof.
  unfold penalties, pen.
  destruct (redundant_prefix text), (too_short text), (too_long text),
    (generic text), (filename text), (all_caps text); lia.
Qed.

(** The six statements leave the issues of the rules that hold, in rule
    order, and 100 less the sum of their penalties. *)
Lemma run_rules_fired (text : string) :
  run_rules text = (fired text, 100 - penalties text).
Proof.
  unfold run_rules, fired, penalties, check, pen, say.
  destruct (redundant_prefix text), (too_short text), (too_long text),
    (generic text), (filename text), (all_caps text); reflexivity.
Qed.

Lemma analyze_not_missing (text : string) (u : option string) (l : string) :
  missing text = false ->
  analyze_existing_alt_text text u l =
  let s := Z.max 0 (100 - penalties text) in
  {| score := s;
     status := if 80 <=? s then "compliant"
               else if 40 <=? s then "poor" else "non_compliant";
     issues := match fired text with [] => [MSG_OK] | _ => fired text end;
     recommendation := if 80 <=? s then REC_OK else REC_IMPROVE |}.
Proof.
  intros Hm. unfold analyze_existing_alt_text.
  rewrite Hm, run_rules_fired. reflexivity.
Qed.

Lemma analyze_missing (text : string) (u : option string) (l : string) :
  missing text = true ->
  analyze_existing_alt_text text u l =
  {| score := 0; status := "missing";
     issues := [MSG_MISSING]; recommendation := REC_MISSING |}.
Proof. intros Hm. unfold analyze_existing_alt_text. now rewrite Hm. Qed.

Lemma issues_keep (msg : string) (l : list string) :
  In msg l -> In msg (match l with [] => [MSG_OK] | _ => l end).
Proof. destruct l; [intros [] | auto]. Qed.

(** C4: the scorer returns a result for every text, with one of the four
    statuses and at least one issue; for every text that is empty or made of
    whitespace only it returns score 0, status missing, the single issue
    saying that the alt text is missing and a recommendation that no other
    result carries, and these are exactly the texts with status missing. *)
Theorem C4_score_missing_short_circuit
    (text : string) (image_url : option string) (wcag_level : string) :
  let r := analyze_existing_alt_text text image_url wcag_level in
  (blank text = true ->
     r = {| score := 0; status := "missing";
            issues := [MSG_MISSING]; recommendation := REC_MISSING |})
  /\ (blank text = false ->
        status r <> "missing" /\ recommendation r <> REC_MISSING)
  /\ In (status r) ["missing"; "non_compliant"; "poor"; "compliant"]
  /\ issues r <> [].
Proof.
  intros r. subst r. rewrite <- missing_blank.
  destruct (missing text) eqn:Hm.
  - rewrite (analyze_missing _ _ _ Hm). simpl.
    repeat split; auto; discriminate.
  - rewrite (analyze_not_missing _ _ _ Hm). cbv zeta. cbn [status issues recommendation].
    repeat split; try discriminate.
    + destruct (80 <=? _); [discriminate|]. destruct (40 <=? _); discriminate.
    + destruct (80 <=? _); discriminate.
    + destruct (80 <=? _); [simpl; tauto|]. destruct (40 <=? _); simpl; tauto.
    + destruct (fired text); discriminate.
Qed.

Lemma C4_witness :
  blank "   " = true
  /\ analyze_existing_alt_text "   " None "AAA"
     = {| score := 0; status := "missing";
          issues := [MSG_MISSING]; recommendation := REC_MISSING |}
  /\ fst (run_rules "   ") = [MSG_SHORT "   "].
Proof.
  split; [reflexivity|]. split; [|reflexivity].
  apply (C4_score_missing_short_circuit "   " None "AAA"). reflexivity.
Defined.

(** C5: for every text the score lies between 0 and 100, and for every text
    that is not blank the status is compliant exactly when the score is at
    least 80, poor exactly when it is at least 40 and below 80, and
    non_compliant exactly when it is below 40. *)
Theorem C5_score_range_and_status
    (text : string) (image_url : option string) (wcag_level : string) :
  let r := analyze_existing_alt_text text image_url wcag_level in
  0 <= score r <= 100
  /\ (blank text = false ->
        (status r = "compliant" <-> 80 <= score r)
        /\ (status r = "poor" <-> 40 <= score r < 80)
        /\ (status r = "non_compliant" <-> score r < 40)).
Proof.
  intros r. subst r. rewrite <- missing_blank.
  pose proof (penalties_nonneg text) as Hp.
  destruct (missing text) eqn:Hm.
  - rewrite (analyze_missing _ _ _ Hm). simpl. split; [lia | discriminate].
  - rewrite (analyze_not_missing _ _ _ Hm). cbv zeta. cbn [score status].
    split; [lia|]. intros _.
    destruct (80 <=? Z.max 0 (100 - penalties text)) eqn:H80;
      [apply Z.leb_le in H80 | apply Z.leb_gt in H80].
    + repeat split; intros; try discriminate; try lia.
    + destruct (40 <=? Z.max 0 (100 - penalties text)) eqn:H40;
        [apply Z.leb_le in H40 | apply Z.leb_gt in H40];
        repeat split; intros; try discriminate; try lia.
Qed.

Lemma C5_witness :
  let r := analyze_existing_alt_text "A red kite over a field" None "AAA" in
  blank "A red kite over a field" = false
  /\ 0 <= score r <= 100
  /\ (status r = "compliant" <-> 80 <= score r)
  /\ (status r = "poor" <-> 40 <= score r < 80)
  /\ (status r = "non_compliant" <-> score r < 40).
Proof.
  pose proof (C5_score_range_and_status "A red kite over a field" None "AAA") as [Hr Hs].
  split; [reflexivity|]. split; [exact Hr|]. apply Hs. reflexivity.
Defined.

(** C6: penalties add up, with no rule suppressing another: the score of a
    text that is not missing is 100 less the sum of the penalties of all the
    rules that hold, cut off at 0, and its issues are those of all these
    rules; the text image gets the too-short and the generic penalty and
    scores 35, the text photo.jpg gets the too-short and the filename
    penalty and scores 25. *)
Theorem C6_penalties_compound :
  (forall text u l,
     let r := analyze_existing_alt_text text u l in
     score r = (if missing text then 0 else Z.max 0 (100 - penalties text))
     /\ issues r = (if missing text then [MSG_MISSING]
                    else match fired text with [] => [MSG_OK] | _ => fired text end))
  /\ (let r := analyze_existing_alt_text "image" None "AAA" in
      penalties "image" = 25 + 40
      /\ score r = 35
      /\ issues r = [MSG_SHORT "image"; MSG_GENERIC])
  /\ (let r := analyze_existing_alt_text "photo.jpg" None "AAA" in
      String.length "photo.jpg" = 9%nat
      /\ penalties "photo.jpg" = 25 + 50
      /\ score r = 25
      /\ issues r = [MSG_SHORT "photo.jpg"; MSG_FILENAME]).
Proof.
  split; [|split].
  - intros text u l r. subst r.
    destruct (missing text) eqn:Hm.
    + now rewrite (analyze_missing _ _ _ Hm).
    + now rewrite (analyze_not_missing _ _ _ Hm).
  - repeat split.
  - repeat split.
Qed.

Lemma isspace_lower_char (c : ascii) : isspace c = true -> lower_char c = c.
Proof.
  destruct c as [[|] [|] [|] [|] [|] [|] [|] [|]];
    vm_compute; intros H; first [reflexivity | discriminate H].
Qed.

Lemma blank_lower (s : string) : blank s = true -> lower s = s.
Proof.
  unfold blank, lower. induction s as [|c s IH]; simpl; [reflexivity|].
  intros H. apply andb_true_iff in H as [Hc Hs].
  now rewrite (isspace_lower_char c Hc), (IH Hs).
Qed.

Lemma generic_not_missing (text : string) :
  generic text = true -> missing text = false.
Proof.
  intros H. rewrite missing_blank.
  destruct (blank text) eqn:Hb; [|reflexivity].
  unfold generic in H. rewrite (blank_lower _ Hb) in H.
  unfold GENERIC_TERMS in H. cbn [existsb] in H.
  repeat (apply orb_true_iff in H as [H|H]);
    try discriminate H;
    apply String.eqb_eq in H; subst text; discriminate Hb.
Qed.

(** C7, as stated, fails: the text made of a space, the word image and a
    space is not blank and its trimmed form is a generic term, yet the
    generic rule does not hold for it: the only issue is the too-short one
    and the score is 75. *)
Lemma C7_counterexample :
  let r := analyze_existing_alt_text " image " None "AAA" in
  blank " image " = false
  /\ strip " image " = "image"
  /\ generic_trimmed " image " = true
  /\ ~ In MSG_GENERIC (issues r)
  /\ issues r = [MSG_SHORT " image "]
  /\ score r = 75.
Proof.
  repeat split. vm_compute. intros [H|[]]. discriminate H.
Qed.

Lemma generic_iff (text : string) :
  generic text = true <-> In (lower text) GENERIC_TERMS.
Proof.
  unfold generic. rewrite existsb_exists. split.
  - intros (x & Hx & He). apply String.eqb_eq in He. now subst x.
  - intros H. exists (lower text). split; [exact H | apply String.eqb_refl].
Qed.

Lemma generic_issue_iff (text : string) (u : option string) (l : string) :
  In MSG_GENERIC (issues (analyze_existing_alt_text text u l))
  <-> generic text = true.
Proof.
  destruct (missing text) eqn:Hm.
  - rewrite (analyze_missing _ _ _ Hm). cbn [issues]. split.
    + intros [H|[]]. discriminate H.
    + intros Hg. apply generic_not_missing in Hg. congruence.
  - rewrite (analyze_not_missing _ _ _ Hm). cbv zeta. cbn [issues]. split.
    + unfold fired, say.
      unfold MSG_OK, MSG_PREFIX, MSG_SHORT, MSG_LONG, MSG_GENERIC, MSG_FILENAME,
        MSG_CAPS.
      destruct (generic text); [reflexivity|].
      destruct (redundant_prefix text), (too_short text), (too_long text),
        (filename text), (all_caps text); cbn;
        intros H; repeat (destruct H as [H|H]; [discriminate H|]); destruct H.
    + intros Hg. apply issues_keep. unfold fired. rewrite Hg.
      do 3 (apply in_or_app; right). now left.
Qed.

Lemma isspace_of_lower_char (c : ascii) : isspace (lower_char c) = isspace c.
Proof.
  destruct c as [[|] [|] [|] [|] [|] [|] [|] [|]]; vm_compute; reflexivity.
Qed.

Lemma starts_in_space_lower (s : string) :
  starts_in isspace (lower s) = starts_in isspace s.
Proof. destruct s; simpl; [reflexivity | apply isspace_of_lower_char]. Qed.

Lemma ends_in_space_lower (s : string) :
  ends_in isspace (lower s) = ends_in isspace s.
Proof.
  unfold lower. induction s as [|c s IH]; [reflexivity|].
  destruct s as [|d s]; [simpl; apply isspace_of_lower_char|].
  exact IH.
Qed.

(** A text whose lower-case form is a generic term has no whitespace at
    either end. *)
Lemma generic_already_trimmed (text : string) :
  In (lower text) GENERIC_TERMS -> strip text = text.
Proof.
  intros H. unfold strip. apply strip_fixed.
  - rewrite <- starts_in_space_lower.
    unfold GENERIC_TERMS in H. simpl in H.
    repeat (destruct H as [H|H]; [rewrite <- H; reflexivity|]). destruct H.
  - rewrite <- ends_in_space_lower.
    unfold GENERIC_TERMS in H. simpl in H.
    repeat (destruct H as [H|H]; [rewrite <- H; reflexivity|]). destruct H.
Qed.

(** C7, amended: the generic issue is among the issues exactly for the
    texts whose lower-case form, taken as it is without trimming, is one of
    the eight generic terms; for these the text is not missing and 40 is
    among the penalties subtracted, so that the score is at most 60; for
    every other text that is not blank no such penalty is subtracted; in
    particular a text with whitespace at either end, which can match a
    generic term only after trimming, never gets the generic issue. *)
Theorem C7_generic_rule
    (text : string) (image_url : option string) (wcag_level : string) :
  let r := analyze_existing_alt_text text image_url wcag_level in
  (In MSG_GENERIC (issues r) <-> In (lower text) GENERIC_TERMS)
  /\ (In (lower text) GENERIC_TERMS ->
      status r <> "missing"
      /\ score r
         = Z.max 0 (100 - (pen (redundant_prefix text) 15 + pen (too_short text) 25
                           + pen (too_long text) 10 + 40
                           + pen (filename text) 50 + pen (all_caps text) 10))
      /\ score r <= 60)
  /\ (~ In (lower text) GENERIC_TERMS -> blank text = false ->
      score r
      = Z.max 0 (100 - (pen (redundant_prefix text) 15 + pen (too_short text) 25
                        + pen (too_long text) 10
                        + pen (filename text) 50 + pen (all_caps text) 10)))
  /\ (strip text <> text -> ~ In MSG_GENERIC (issues r)).
Proof.
  intros r.
  assert (Hiff : In MSG_GENERIC (issues r) <-> In (lower text) GENERIC_TERMS).
  { subst r. rewrite generic_issue_iff. apply generic_iff. }
  split; [exact Hiff|]. split; [|split].
  - intros Hin. apply generic_iff in Hin as Hg.
    pose proof (generic_not_missing _ Hg) as Hm.
    subst r. rewrite (analyze_not_missing _ _ _ Hm).
    cbv zeta. cbn [score status].
    assert (Hp : penalties text
                 = pen (redundant_prefix text) 15 + pen (too_short text) 25
                   + pen (too_long text) 10 + 40
                   + pen (filename text) 50 + pen (all_caps text) 10).
    { unfold penalties. now rewrite Hg. }
    rewrite Hp. repeat split.
    + destruct (80 <=? _); [discriminate|]. destruct (40 <=? _); discriminate.
    + unfold pen.
      destruct (redundant_prefix text), (too_short text), (too_long text),
        (filename text), (all_caps text); lia.
  - intros Hnin Hb. rewrite <- missing_blank in Hb.
    assert (Hg : generic text = false).
    { destruct (generic text) eqn:Hg; [|reflexivity].
      apply generic_iff in Hg. contradiction. }
    subst r. rewrite (analyze_not_missing _ _ _ Hb). cbv zeta. cbn [score].
    unfold penalties. rewrite Hg. unfold pen at 4. f_equal. lia.
  - intros Hs Hin. apply Hiff in Hin. now apply generic_already_trimmed in Hin.
Qed.

Lemma C7_witness :
  let r := analyze_existing_alt_text "Picture" None "AAA" in
  In (lower "Picture") GENERIC_TERMS
  /\ In MSG_GENERIC (issues r)
  /\ score r = 35
  /\ strip " image " <> " image "
  /\ ~ In MSG_GENERIC (issues (analyze_existing_alt_text " image " None "AAA")).
Proof.
  assert (Hin : In (lower "Picture") GENERIC_TERMS) by (vm_compute; tauto).
  pose proof (C7_generic_rule "Picture" None "AAA") as (Hi & _ & _ & _).
  split; [exact Hin|]. split; [now apply Hi|]. split; [reflexivity|].
  assert (Hs : strip " image " <> " image ") by (vm_compute; discriminate).
  split; [exact Hs|].
  pose proof (C7_generic_rule " image " None "AAA") as (_ & _ & _ & Ht).
  exact (Ht Hs).
Defined.

Lemma codes_eqb_refl (a : list N) : codes_eqb a a = true.
Proof.
  induction a as [|x a IH]; simpl; [reflexivity|].
  now rewrite N.eqb_refl, IH.
Qed.

(** C10: for every text that is not blank, is longer than 5 characters and
    equals its own upper-case form, the all-caps issue is among the issues
    and 10 is among the penalties subtracted; this includes texts without
    any letter: the text of the six digits 123456 gets the too-short and
    the all-caps penalty and scores 65. *)
Theorem C10_all_caps_rule
    (text : string) (image_url : option string) (wcag_level : string) :
  blank text = false ->
  (5 < String.length text)%nat ->
  code_points text = upper text ->
  let r := analyze_existing_alt_text text image_url wcag_level in
  In MSG_CAPS (issues r)
  /\ score r
     = Z.max 0 (100 - (pen (redundant_prefix text) 15 + pen (too_short text) 25
                       + pen (too_long text) 10 + pen (generic text) 40
                       + pen (filename text) 50 + 10))
  /\ score r <= 90
  /\ (let d := analyze_existing_alt_text "123456" None "AAA" in
      upper "123456" = code_points "123456"
      /\ lower "123456" = "123456"
      /\ issues d = [MSG_SHORT "123456"; MSG_CAPS]
      /\ score d = 65).
Proof.
  intros Hb Hlen Hup r.
  assert (Hc : all_caps text = true).
  { unfold all_caps. rewrite <- Hup, codes_eqb_refl. simpl.
    now apply Nat.ltb_lt. }
  rewrite <- missing_blank in Hb.
  subst r. rewrite (analyze_not_missing _ _ _ Hb).
  cbv zeta. cbn [score issues].
  assert (Hp : penalties text
               = pen (redundant_prefix text) 15 + pen (too_short text) 25
                 + pen (too_long text) 10 + pen (generic text) 40
                 + pen (filename text) 50 + 10).
  { unfold penalties. now rewrite Hc. }
  rewrite Hp. split; [|split; [reflexivity|split]].
  - apply issues_keep. unfold fired. rewrite Hc.
    do 5 (apply in_or_app; right). now left.
  - unfold pen.
    destruct (redundant_prefix text), (too_short text), (too_long text),
      (generic text), (filename text); lia.
  - repeat split.
Qed.

Lemma C10_witness :
  let r := analyze_existing_alt_text "2024-11-04" None "AAA" in
  blank "2024-11-04" = false
  /\ (5 < String.length "2024-11-04")%nat
  /\ code_points "2024-11-04" = upper "2024-11-04"
  /\ In MSG_CAPS (issues r)
  /\ score r = 90.
Proof.
  assert (Hb : blank "2024-11-04" = false) by reflexivity.
  assert (Hl : (5 < String.length "2024-11-04")%nat) by (simpl; lia).
  assert (Hu : code_points "2024-11-04" = upper "2024-11-04") by reflexivity.
  pose proof (C10_all_caps_rule "2024-11-04" None "AAA" Hb Hl Hu) as (Hi & _).
  repeat split; try exact Hi; try exact Hl.
Defined.

(** ** The clean-up of quotes *)

(** C8: the clean-up of quotes does not clean up every nesting of quotes,
    so it is not idempotent: on the text made of an apostrophe, a double
    quote, the letter a, a double quote and an apostrophe it leaves the
    letter between its double quotes, which only a second clean-up removes;
    the same holds with the whitespace stripping that precedes it; yet the
    mirrored nesting, a double quote, an apostrophe, the letter, an
    apostrophe and a double quote, is cleaned to the letter in one pass. *)
Theorem C8_nested_quotes_left :
  let s := SQUOTE ++ DQUOTE ++ "a" ++ DQUOTE ++ SQUOTE in
  let m := DQUOTE ++ SQUOTE ++ "a" ++ SQUOTE ++ DQUOTE in
  strip_quotes s = DQUOTE ++ "a" ++ DQUOTE
  /\ surrounded_by QUOTES (strip_quotes s) = true
  /\ strip_quotes (strip_quotes s) = "a"
  /\ strip_quotes (strip_quotes s) <> strip_quotes s
  /\ clean_up s = DQUOTE ++ "a" ++ DQUOTE
  /\ clean_up (clean_up s) <> clean_up s
  /\ strip_quotes m = "a"
  /\ clean_up m = "a".
Proof. repeat split; vm_compute; discriminate. Qed.

(** The clean-up of quotes returns unchanged every text whose first and
    last characters are not quote characters; its result never begins or
    ends with an apostrophe; and a second clean-up leaves the result of the
    first unchanged exactly when that result neither begins nor ends with a
    double quote. *)
Lemma strip_quotes_fixed_points (s : string) :
  (surrounded_by QUOTES s = false -> strip_quotes s = s)
  /\ surrounded_by SQUOTE (strip_quotes s) = false
  /\ (strip_quotes (strip_quotes s) = strip_quotes s
      <-> surrounded_by DQUOTE (strip_quotes s) = false).
Proof.
  assert (Hsq : forall t, surrounded_by SQUOTE (strip_quotes t) = false)
    by (intros t; apply strip_chars_not_surrounded).
  split; [|split].
  - intros H. apply surrounded_by_quotes_split in H as [Hd Hq].
    unfold strip_quotes.
    apply strip_chars_fixed_iff in Hd. rewrite Hd.
    now apply strip_chars_fixed_iff.
  - apply Hsq.
  - set (r := strip_quotes s). split.
    + intros H. apply strip_chars_fixed_iff.
      apply strip_same_length.
      unfold strip_quotes in H.
      pose proof (strip_length (fun c => mem_char c SQUOTE)
                    (strip_chars DQUOTE r)) as H1.
      pose proof (strip_length (fun c => mem_char c DQUOTE) r) as H2.
      unfold strip_chars in *. rewrite H in H1. lia.
    + intros H. unfold strip_quotes at 1.
      apply strip_chars_fixed_iff in H. rewrite H.
      apply strip_chars_fixed_iff, Hsq.
Qed.

(** ** The orchestrator *)

Lemma In_firstn {A : Type} (x : A) (k : nat) (l : list A) :
  In x (firstn k l) -> In x l.
Proof.
  intros H. rewrite <- (firstn_skipn k l). apply in_or_app. now left.
Qed.

Lemma model_list_nil (s : string) :
  Forall (fun m => strip m = "") (split "," s) -> model_list s = [].
Proof.
  unfold model_list. generalize (split "," s). intros l H.
  induction H as [|m l Hm _ IH]; simpl; [reflexivity|].
  rewrite Hm. exact IH.
Qed.

Lemma all_models_tier (settings : Settings) (m t : string) :
  In (m, t) (all_models settings) -> t = "free" \/ t = "paid".
Proof.
  unfold all_models. intros H. apply in_app_or in H as [H|H];
    apply in_map_iff in H as (x & Hx & _); inversion Hx; auto.
Qed.

Lemma image_content_none (a : Args) :
  image_content a = None
  <-> supplied (image_url a) = false /\ supplied (image_base64 a) = false.
Proof.
  unfold image_content.
  destruct (supplied (image_url a)), (supplied (image_base64 a));
    split; try discriminate; try tauto; intros [H1 H2]; discriminate.
Qed.

Section BackendFacts.

Variable World : Type.
Variable time_time : World -> Q.
Variable post : Request -> World -> Outcome * World.
Variable settings : Settings.

Local Abbreviation try_models := (try_models World time_time post settings).
Local Abbreviation generate_alt_text := (generate_alt_text World time_time post settings).
Local Abbreviation skips := (skips World post settings).

(** An attempt that is not accepted hands over to the next candidate. *)
Lemma try_models_rejected sp img m t rest le tr w o w1 :
  post (request settings sp img m) w = (o, w1) ->
  accepted o = None ->
  exists e,
    try_models sp img ((m, t) :: rest) le tr w
    = try_models sp img rest (Some e) (tr ++ [(m, t)]) w1.
Proof.
  intros Hp Ha. simpl. rewrite Hp.
  destruct o as [sc text body|e]; [|eexists; reflexivity].
  destruct (sc =? 200) eqn:H200.
  - apply Z.eqb_eq in H200. subst sc.
    destruct body; [discriminate Ha | eexists; reflexivity].
  - destruct (sc =? 429); eexists; reflexivity.
Qed.

(** An accepted attempt returns at once. *)
Lemma try_models_accepted sp img m t rest le tr w text content w1 :
  post (request settings sp img m) w = (Response 200 text (Content content), w1) ->
  try_models sp img ((m, t) :: rest) le tr w
  = (inr {| alt_text := clean_up content;
            model_used := m;
            confidence := if String.eqb t "paid" then 0.92%Q else 0.85%Q;
            carbon_cost := dict_get CARBON_COST_PER_CALL t 1.0%Q;
            processing_time :=
              int_of_Q ((time_time w1 - time_time w) * 1000)%Q |},
     (tr ++ [(m, t)])%list, w1).
Proof. intros Hp. simpl. rewrite Hp. reflexivity. Qed.

Lemma try_models_skips sp img pre w w1 :
  skips sp img pre w w1 ->
  forall rest le tr,
  exists le',
    try_models sp img (pre ++ rest) le tr w
    = try_models sp img rest le' (tr ++ pre) w1.
Proof.
  induction 1 as [w|m t pre w o w1 w2 Hp Ha _ IH]; intros rest le tr.
  - exists le. now rewrite app_nil_r.
  - destruct (try_models_rejected sp img m t (pre ++ rest) le tr w o w1 Hp Ha)
      as [e He].
    destruct (IH rest (Some e) (tr ++ [(m, t)])%list) as [le' Hle].
    exists le'. rewrite <- app_comm_cons, He, Hle.
    now rewrite <- app_assoc.
Qed.

(** The attempts made are a prefix of the candidates, in their order. *)
Lemma try_models_tried sp img models :
  forall le tr w,
  exists k, snd (fst (try_models sp img models le tr w))
            = (tr ++ firstn k models)%list.
Proof.
  induction models as [|[m t] rest IH]; intros le tr w.
  - exists 0%nat. simpl. now rewrite app_nil_r.
  - destruct (post (request settings sp img m) w) as [o w1] eqn:Hp.
    destruct (accepted o) as [content|] eqn:Ha.
    + exists 1%nat.
      destruct o as [sc text body|e]; [|discriminate Ha].
      destruct body as [c|e]; simpl in Ha.
      * assert (sc = 200) by
          (destruct sc as [|q|q]; try discriminate Ha;
           repeat (destruct q as [q|q|]; try discriminate Ha); reflexivity).
        subst sc. now rewrite (try_models_accepted _ _ _ _ _ _ _ _ _ _ _ Hp).
      * destruct sc as [|q|q]; try discriminate Ha;
          repeat (destruct q as [q|q|]; try discriminate Ha).
    + destruct (try_models_rejected sp img m t rest le tr w o w1 Hp Ha) as [e He].
      destruct (IH (Some e) (tr ++ [(m, t)])%list w1) as [k Hk].
      exists (S k). rewrite He, Hk. now rewrite <- app_assoc.
Qed.

(** The loop ends with a result or with the exhaustion failure. *)
Lemma try_models_result sp img models :
  forall le tr w,
  (exists g, fst (fst (try_models sp img models le tr w)) = inr g)
  \/ (exists le', fst (fst (try_models sp img models le tr w))
                  = inl (AllBackendsExhausted le')).
Proof.
  induction models as [|[m t] rest IH]; intros le tr w.
  - right. now exists le.
  - simpl. destruct (post (request settings sp img m) w) as [o w1].
    destruct o as [sc text body|e]; [|apply IH].
    destruct (sc =? 200).
    + destruct body; [left; eexists; reflexivity | apply IH].
    + destruct (sc =? 429); apply IH.
Qed.

Lemma generate_configured (a : Args) (w : World) (img : string) :
  truthy (OPENROUTER_API_KEY settings) = true ->
  image_content a = Some img ->
  generate_alt_text a w
  = try_models
      (_build_system_prompt (language a) (tone a) (wcag_level a) (context a))
      img (all_models settings) None [] w.
Proof.
  intros Hk Hi. unfold Vision.generate_alt_text. now rewrite Hk, Hi.
Qed.

End BackendFacts.

Section OrchestratorClaims.

Variable World : Type.
Variable time_time : World -> Q.
Variable post : Request -> World -> Outcome * World.
Variable settings : Settings.

Local Abbreviation try_models := (try_models World time_time post settings).
Local Abbreviation generate_alt_text := (generate_alt_text World time_time post settings).
Local Abbreviation skips := (skips World post settings).
Local Abbreviation prompt a :=
  (_build_system_prompt (language a) (tone a) (wcag_level a) (context a)).

(** C1: the candidates are the free models in their configured order
    followed by the paid models in their configured order; the attempts that
    [generate_alt_text] makes are a prefix of this list, in this order, so
    that a paid attempt is made only after every free candidate has been
    attempted; and for the candidates free A, free B, paid C, when the
    attempt on A is not accepted and the attempt on B is, the result names B
    as the model used and the attempts are those on A and on B only. *)
Theorem C1_free_candidates_first (a : Args) (w : World) :
  let free_models := model_list (VISION_MODELS_FREE settings) in
  let paid_models := model_list (VISION_MODELS_PAID settings) in
  let candidates :=
    (map (fun m => (m, "free")) free_models
     ++ map (fun m => (m, "paid")) paid_models)%list in
  let tried := snd (fst (generate_alt_text a w)) in
  all_models settings = candidates
  /\ (exists k, tried = firstn k candidates)
  /\ (forall m, In (m, "paid") tried ->
        firstn (List.length free_models) tried
        = map (fun m => (m, "free")) free_models)
  /\ (forall A B C img oA w1 text content w2,
        truthy (OPENROUTER_API_KEY settings) = true ->
        image_content a = Some img ->
        all_models settings = [(A, "free"); (B, "free"); (C, "paid")] ->
        post (request settings (prompt a) img A) w = (oA, w1) ->
        accepted oA = None ->
        post (request settings (prompt a) img B) w1
        = (Response 200 text (Content content), w2) ->
        exists g,
          generate_alt_text a w = (inr g, [(A, "free"); (B, "free")], w2)
          /\ model_used g = B).
Proof.
  intros free_models paid_models candidates tried.
  assert (Hpre : exists k, tried = firstn k candidates).
  { subst tried. unfold Vision.generate_alt_text.
    destruct (negb (truthy (OPENROUTER_API_KEY settings)));
      [now exists 0%nat|].
    destruct (image_content a) as [img|]; [|now exists 0%nat].
    destruct (try_models_tried World time_time post settings (prompt a) img
                (all_models settings) None [] w) as [k Hk].
    exists k. exact Hk. }
  split; [reflexivity|]. split; [exact Hpre|]. split.
  - intros m Hin. destruct Hpre as [k Hk]. rewrite Hk in *. clear Hk.
    set (F := map (fun m => (m, "free")) free_models) in *.
    set (P := map (fun m => (m, "paid")) paid_models) in *.
    assert (HF : List.length F = List.length free_models)
      by (subst F; apply length_map).
    rewrite <- HF.
    destruct (Nat.le_gt_cases k (List.length F)) as [Hle|Hgt].
    + exfalso. subst candidates. rewrite firstn_app in Hin.
      replace (k - List.length F)%nat with 0%nat in Hin by lia.
      simpl in Hin. rewrite app_nil_r in Hin.
      apply In_firstn in Hin. subst F.
      apply in_map_iff in Hin as (x & Hx & _). inversion Hx.
    + rewrite firstn_firstn.
      replace (Nat.min (List.length F) k) with (List.length F) by lia.
      subst candidates. rewrite firstn_app, firstn_all, Nat.sub_diag.
      simpl. apply app_nil_r.
  - intros A B C img oA w1 text content w2 Hk Hi Hall HA HrA HB.
    rewrite (generate_configured _ _ _ _ a w img Hk Hi), Hall.
    destruct (try_models_rejected World time_time post settings (prompt a) img
                A "free" [(B, "free"); (C, "paid")] None [] w oA w1 HA HrA)
      as [e He].
    rewrite He.
    rewrite (try_models_accepted World time_time post settings _ _ _ _ _ _ _ _ _ _ _ HB).
    eexists. split; reflexivity.
Qed.


(** C3, amended: [generate_alt_text] fails with the input error exactly
    when a credential is configured and neither [image_url] nor
    [image_base64] is supplied, whatever the other arguments; when both are
    supplied it does not fail with the input error: it goes on as if only
    [image_url] had been given. *)
Theorem C3_input_error_iff_neither (a : Args) (w : World) :
  (fst (fst (generate_alt_text a w)) = inl InputError
   <-> truthy (OPENROUTER_API_KEY settings) = true
       /\ supplied (image_url a) = false
       /\ supplied (image_base64 a) = false)
  /\ (supplied (image_url a) = true -> supplied (image_base64 a) = true ->
        fst (fst (generate_alt_text a w)) <> inl InputError
        /\ generate_alt_text a w
           = generate_alt_text
               {| image_url := image_url a; image_base64 := None;
                  mime_type := mime_type a; language := language a;
                  tone := tone a; wcag_level := wcag_level a;
                  context := context a |} w).
Proof.
  assert (Hiff : fst (fst (generate_alt_text a w)) = inl InputError
                 <-> truthy (OPENROUTER_API_KEY settings) = true
                     /\ supplied (image_url a) = false
                     /\ supplied (image_base64 a) = false).
  { rewrite <- image_content_none.
    unfold Vision.generate_alt_text.
    destruct (truthy (OPENROUTER_API_KEY settings)); cbn [negb].
    - destruct (image_content a) as [img|] eqn:Hi; cbn [fst].
      + split; [|intros (_ & H); discriminate H].
        intros H.
        destruct (try_models_result World time_time post settings (prompt a)
                    img (all_models settings) None [] w) as [[g Hg]|[le Hle]].
        * pose proof (eq_trans (eq_sym Hg) H) as E. discriminate E.
        * pose proof (eq_trans (eq_sym Hle) H) as E. discriminate E.
      + tauto.
    - split; [discriminate | intros (H & _); discriminate H]. }
  split; [exact Hiff|].
  intros Hu Hb. split.
  - intros H. apply Hiff in H as (_ & H & _). congruence.
  - unfold Vision.generate_alt_text, image_content. simpl. now rewrite Hu.
Qed.

(** C9: with a credential configured and exactly one image source
    supplied, when every comma-separated piece of both model lists is blank,
    [generate_alt_text] makes no attempt, leaves the world as it is and
    fails with the exhaustion failure whose last error is [None]. *)
Theorem C9_no_candidates_exhausted (a : Args) (w : World) :
  truthy (OPENROUTER_API_KEY settings) = true ->
  xorb (supplied (image_url a)) (supplied (image_base64 a)) = true ->
  Forall (fun m => blank m = true) (split "," (VISION_MODELS_FREE settings)) ->
  Forall (fun m => blank m = true) (split "," (VISION_MODELS_PAID settings)) ->
  all_models settings = []
  /\ generate_alt_text a w = (inl (AllBackendsExhausted None), [], w)
  /\ AllBackendsExhausted None
     = RuntimeError "All vision models failed. Last error: None".
Proof.
  intros Hk Hx Hf Hp.
  assert (Hnil : forall s, Forall (fun m => blank m = true) (split "," s) ->
                           model_list s = []).
  { intros s H. apply model_list_nil. eapply Forall_impl; [|exact H].
    intros m Hm. now apply (strip_empty_iff isspace). }
  assert (Hall : all_models settings = []).
  { unfold all_models. now rewrite (Hnil _ Hf), (Hnil _ Hp). }
  split; [exact Hall|]. split; [|reflexivity].
  assert (Hi : exists img, image_content a = Some img).
  { unfold image_content.
    destruct (supplied (image_url a)); [eexists; reflexivity|].
    destruct (supplied (image_base64 a)); [eexists; reflexivity|].
    discriminate Hx. }
  destruct Hi as [img Hi].
  rewrite (generate_configured _ _ _ _ a w img Hk Hi), Hall. reflexivity.
Qed.

End OrchestratorClaims.

(** ** Runs in the concrete world *)

Lemma C1_witness :
  exists g,
    Demo.run "A, B" "C" (Some "http://x/y.png") None
    = (inr g, [("A", "free"); ("B", "free")], (0 + 2 + 1.25)%Q)
    /\ model_used g = "B".
Proof.
  pose proof (C1_free_candidates_first Demo.World Demo.time_time Demo.post
                (Demo.settings_of "A, B" "C")
                (Demo.args_of (Some "http://x/y.png") None) 0%Q)
    as (_ & _ & _ & H).
  apply (H "A" "B" "C" "http://x/y.png"
           (Response 503 "unavailable" (Malformed "Expecting value"))
           (0 + 2)%Q "{...}" " 'A red kite over a field' " (0 + 2 + 1.25)%Q);
    reflexivity.
Defined.



(** C3, as stated, fails: with both [image_url] and [image_base64] supplied
    [generate_alt_text] raises no input error; it posts the URL and returns
    the completion. *)
Lemma C3_counterexample :
  let r := Demo.run "B" "" (Some "http://x/y.png") (Some "aGVsbG8=") in
  fst (fst r) <> inl InputError
  /\ r = (inr {| alt_text := "A red kite over a field";
                 model_used := "B";
                 confidence := 0.85%Q;
                 carbon_cost := 0.5%Q;
                 processing_time := 1250 |},
          [("B", "free")], (0 + 1.25)%Q)
  /\ image_content (Demo.args_of (Some "http://x/y.png") (Some "aGVsbG8="))
     = Some "http://x/y.png".
Proof. repeat split. discriminate. Qed.

Lemma C3_witness :
  let a := Demo.args_of (Some "http://x/y.png") (Some "aGVsbG8=") in
  supplied (image_url a) = true
  /\ supplied (image_base64 a) = true
  /\ fst (fst (Demo.run "B" "" (Some "http://x/y.png") (Some "aGVsbG8=")))
     <> inl InputError
  /\ fst (fst (Demo.run "B" "" None (Some ""))) = inl InputError.
Proof.
  split; [reflexivity|]. split; [reflexivity|]. split.
  - apply (C3_input_error_iff_neither Demo.World Demo.time_time Demo.post
             (Demo.settings_of "B" "")
             (Demo.args_of (Some "http://x/y.png") (Some "aGVsbG8=")) 0%Q);
      reflexivity.
  - apply (C3_input_error_iff_neither Demo.World Demo.time_time Demo.post
             (Demo.settings_of "B" "") (Demo.args_of None (Some "")) 0%Q).
    repeat split.
Defined.

Lemma C9_witness :
  Demo.run " , " "" None (Some "aGVsbG8=")
  = (inl (RuntimeError "All vision models failed. Last error: None"), [], 0%Q).
Proof.
  apply (C9_no_candidates_exhausted Demo.World Demo.time_time Demo.post
           (Demo.settings_of " , " "") (Demo.args_of None (Some "aGVsbG8=")) 0%Q).
  - reflexivity.
  - reflexivity.
  - repeat constructor.
  - repeat constructor.
Defined.

(** * Further properties of the code around the claims *)

Import PyMore Failure.

(** ** Strings *)

Lemma all_chars_app (p : ascii -> bool) (a b : string) :
  all_chars p (a ++ b) = all_chars p a && all_chars p b.
Proof.
  induction a as [|c a IH]; simpl; [reflexivity|].
  now rewrite IH, andb_assoc.
Qed.

Lemma all_chars_weaken (p q : ascii -> bool) (s : string) :
  (forall c, p c = true -> q c = true) ->
  all_chars p s = true -> all_chars q s = true.
Proof.
  intros Hpq. induction s as [|c s IH]; simpl; [reflexivity|].
  intros H. apply andb_true_iff in H as [Hc Hs].
  now rewrite (Hpq c Hc), (IH Hs).
Qed.

Lemma append_empty_r (s : string) : s ++ "" = s.
Proof. induction s as [|c s IH]; simpl; [reflexivity | now rewrite IH]. Qed.

Lemma append_assoc (a b c : string) : (a ++ b) ++ c = a ++ b ++ c.
Proof. induction a as [|x a IH]; simpl; [reflexivity | now rewrite IH]. Qed.

Section StripShape.

Variable p : ascii -> bool.

Lemma lstrip_split (s : string) :
  exists a, s = a ++ lstrip_with p s /\ all_chars p a = true.
Proof.
  induction s as [|c s (a & Ha & Hp)]; simpl.
  - now exists "".
  - destruct (p c) eqn:Hc.
    + exists (String c a). simpl. rewrite Hc, Hp. now rewrite <- Ha.
    + now exists "".
Qed.

Lemma rstrip_split (s : string) :
  exists b, s = rstrip_with p s ++ b /\ all_chars p b = true.
Proof.
  induction s as [|c s (b & Hb & Hp)]; simpl.
  - now exists "".
  - destruct (rstrip_with p s) as [|d r] eqn:Hr.
    + simpl in Hb. subst b. destruct (p c) eqn:Hc.
      * exists (String c s). simpl. now rewrite Hc, Hp.
      * exists s. now split.
    + exists b. split; [|exact Hp]. simpl. now rewrite Hb at 1.
Qed.

Lemma strip_split (s : string) :
  exists a b, s = a ++ strip_with p s ++ b
              /\ all_chars p a = true /\ all_chars p b = true.
Proof.
  destruct (lstrip_split s) as (a & Ha & Hpa).
  destruct (rstrip_split (lstrip_with p s)) as (b & Hb & Hpb).
  exists a, b. unfold strip_with. now rewrite <- Hb, <- Ha.
Qed.

Lemma lstrip_app_all (a s : string) :
  all_chars p a = true -> lstrip_with p (a ++ s) = lstrip_with p s.
Proof.
  induction a as [|c a IH]; simpl; [reflexivity|].
  intros H. apply andb_true_iff in H as [Hc Ha]. now rewrite Hc, IH.
Qed.

Lemma rstrip_all (b : string) :
  all_chars p b = true -> rstrip_with p b = "".
Proof. apply rstrip_empty_iff. Qed.

Lemma rstrip_app_all (r b : string) :
  all_chars p b = true -> rstrip_with p (r ++ b) = rstrip_with p r.
Proof.
  intros Hb. induction r as [|c r IH]; simpl.
  - now apply rstrip_all.
  - now rewrite IH.
Qed.

Lemma lstrip_all (b : string) :
  all_chars p b = true -> lstrip_with p b = "".
Proof.
  induction b as [|c b IH]; simpl; [reflexivity|].
  intros H. apply andb_true_iff in H as [Hc Hb]. now rewrite Hc, IH.
Qed.

(** What [strip] returns is fixed by its shape: it is the one middle piece
    that leaves only characters of the set on both sides and has none of
    them at either end. *)
Lemma strip_unique (s a r b : string) :
  s = a ++ r ++ b ->
  all_chars p a = true -> all_chars p b = true ->
  starts_in p r = false -> ends_in p r = false ->
  strip_with p s = r.
Proof.
  intros -> Ha Hb Hs He. unfold strip_with.
  rewrite (lstrip_app_all _ _ Ha).
  destruct r as [|c r].
  - simpl. now rewrite (lstrip_all _ Hb).
  - rewrite (lstrip_fixed p (String c r ++ b)) by exact Hs.
    rewrite (rstrip_app_all _ _ Hb). now apply rstrip_fixed.
Qed.

End StripShape.

Import MoreNotions.

(** ** The clean-up of the completion and the model lists *)

Lemma space_or_quote_of_space (c : ascii) :
  isspace c = true -> space_or_quote c = true.
Proof. unfold space_or_quote. now intros ->. Qed.

Lemma space_or_quote_of_dquote (c : ascii) :
  mem_char c DQUOTE = true -> space_or_quote c = true.
Proof.
  unfold space_or_quote, QUOTES, DQUOTE, SQUOTE. simpl.
  destruct (Ascii.eqb c (ascii_of_nat 34)); simpl; [|discriminate].
  intros _. apply orb_true_r.
Qed.

Lemma space_or_quote_of_squote (c : ascii) :
  mem_char c SQUOTE = true -> space_or_quote c = true.
Proof.
  unfold space_or_quote, QUOTES, DQUOTE, SQUOTE. simpl.
  destruct (Ascii.eqb c (ascii_of_nat 39)); simpl; [|discriminate].
  intros _. rewrite !orb_true_r. reflexivity.
Qed.

(** The alt text that [generate_alt_text] returns is a middle piece of the
    completion: what the clean-up drops before and after it is made of
    whitespace and quote characters only, and what is left never begins or
    ends with an apostrophe. *)
Theorem clean_up_middle_piece (content : string) :
  exists a b,
    content = a ++ clean_up content ++ b
    /\ all_chars space_or_quote a = true
    /\ all_chars space_or_quote b = true
    /\ surrounded_by SQUOTE (clean_up content) = false
    /\ (String.length (clean_up content) <= String.length content)%nat.
Proof.
  unfold clean_up, strip_quotes, strip, strip_chars.
  destruct (strip_split isspace content) as (a1 & b1 & H1 & Ha1 & Hb1).
  set (s1 := strip_with isspace content) in *.
  destruct (strip_split (fun c => mem_char c DQUOTE) s1) as (a2 & b2 & H2 & Ha2 & Hb2).
  set (s2 := strip_with (fun c => mem_char c DQUOTE) s1) in *.
  destruct (strip_split (fun c => mem_char c SQUOTE) s2) as (a3 & b3 & H3 & Ha3 & Hb3).
  set (s3 := strip_with (fun c => mem_char c SQUOTE) s2) in *.
  exists (a1 ++ a2 ++ a3), (b3 ++ b2 ++ b1).
  split; [|split; [|split; [|split]]].
  - rewrite H1 at 1. rewrite H2 at 1. rewrite H3 at 1.
    now rewrite !append_assoc.
  - rewrite !all_chars_app.
    rewrite (all_chars_weaken _ _ _ space_or_quote_of_space Ha1).
    rewrite (all_chars_weaken _ _ _ space_or_quote_of_dquote Ha2).
    now rewrite (all_chars_weaken _ _ _ space_or_quote_of_squote Ha3).
  - rewrite !all_chars_app.
    rewrite (all_chars_weaken _ _ _ space_or_quote_of_space Hb1).
    rewrite (all_chars_weaken _ _ _ space_or_quote_of_dquote Hb2).
    now rewrite (all_chars_weaken _ _ _ space_or_quote_of_squote Hb3).
  - apply surrounded_by_false, strip_not_surrounded.
  - pose proof (strip_length isspace content).
    pose proof (strip_length (fun c => mem_char c DQUOTE) s1).
    pose proof (strip_length (fun c => mem_char c SQUOTE) s2).
    subst s1 s2 s3. lia.
Qed.

Lemma split_comma_free (sep : ascii) (s x : string) :
  In x (split sep s) -> all_chars (fun c => negb (Ascii.eqb c sep)) x = true.
Proof.
  revert x. induction s as [|c s IH]; simpl; intros x Hx.
  - destruct Hx as [<-|[]]. reflexivity.
  - destruct (Ascii.eqb c sep) eqn:Hc.
    + destruct Hx as [<-|Hx]; [reflexivity | now apply IH].
    + destruct (split sep s) as [|y ys] eqn:Hs.
      * destruct Hx as [<-|[]]. simpl. now rewrite Hc.
      * destruct Hx as [<-|Hx].
        -- simpl. rewrite Hc. simpl. apply IH. now left.
        -- apply IH. now right.
Qed.

Lemma split_single (sep : ascii) (x : string) :
  all_chars (fun c => negb (Ascii.eqb c sep)) x = true -> split sep x = [x].
Proof.
  induction x as [|c x IH]; simpl; [reflexivity|].
  intros H. apply andb_true_iff in H as [Hc Hx].
  apply negb_true_iff in Hc. now rewrite Hc, (IH Hx).
Qed.

Lemma split_app_sep (sep : ascii) (x t : string) :
  all_chars (fun c => negb (Ascii.eqb c sep)) x = true ->
  split sep (x ++ String sep t) = x :: split sep t.
Proof.
  induction x as [|c x IH]; simpl.
  - intros _. now rewrite Ascii.eqb_refl.
  - intros H. apply andb_true_iff in H as [Hc Hx].
    apply negb_true_iff in Hc. now rewrite Hc, (IH Hx).
Qed.

Lemma split_join (sep : ascii) (names : list string) :
  names <> [] ->
  Forall (fun x => all_chars (fun c => negb (Ascii.eqb c sep)) x = true) names ->
  split sep (join (String sep "") names) = names.
Proof.
  induction names as [|x [|y rest] IH]; intros Hne Hall.
  - now destruct Hne.
  - simpl. apply split_single. now inversion Hall.
  - inversion Hall as [|? ? Hx Hrest]; subst.
    change (join (String sep "") (x :: y :: rest))
      with (x ++ String sep (join (String sep "") (y :: rest))).
    rewrite (split_app_sep _ _ _ Hx). f_equal.
    apply IH; [discriminate | exact Hrest].
Qed.

Lemma model_name_ok_iff (m : string) :
  model_name_ok m = true
  <-> m <> "" /\ strip m = m /\ comma_free m = true.
Proof.
  unfold model_name_ok, strip. rewrite !andb_true_iff, !negb_true_iff.
  rewrite strip_fixed_iff. split.
  - intros [[[Ht Hs] He] Hc]. repeat split; auto.
    intros ->. discriminate Ht.
  - intros (Hne & [Hs He] & Hc). repeat split; auto.
    destruct m; [now destruct Hne | reflexivity].
Qed.

Lemma model_list_keeps (names : list string) :
  Forall (fun m => model_name_ok m = true) names ->
  map strip (filter (fun m => truthy (strip m)) names) = names.
Proof.
  induction 1 as [|m names Hm _ IH]; simpl; [reflexivity|].
  apply model_name_ok_iff in Hm as (Hne & Hs & _).
  rewrite Hs. destruct m; [now destruct Hne|]. simpl. rewrite Hs. now rewrite IH.
Qed.

(** Every entry of a parsed model list is a usable model name: not empty,
    without whitespace at either end and without a comma. *)
Theorem model_list_entries_ok (s m : string) :
  In m (model_list s) -> model_name_ok m = true.
Proof.
  unfold model_list. intros H.
  apply in_map_iff in H as (x & <- & Hx).
  apply filter_In in Hx as [Hx Ht].
  apply model_name_ok_iff. split; [|split].
  - intros E. rewrite E in Ht. discriminate Ht.
  - unfold strip. apply strip_fixed_iff, strip_not_surrounded.
  - apply split_comma_free in Hx.
    destruct (strip_split isspace x) as (a & b & Hab & _).
    unfold comma_free, strip. rewrite Hab in Hx.
    rewrite !all_chars_app in Hx.
    apply andb_true_iff in Hx as [_ Hx]. now apply andb_true_iff in Hx as [Hx _].
Qed.

Lemma model_list_witness :
  model_name_ok "openai/gpt-4.1-mini" = true.
Proof.
  apply (model_list_entries_ok " google/gemini-2.5-flash , openai/gpt-4.1-mini,").
  vm_compute. tauto.
Defined.

(** Configuration round trip: when the two settings are lists of usable
    model names joined by commas, the candidates are exactly these names,
    in their order, the free ones first. *)
Theorem all_models_of_joined_names (settings : Settings) (frees paids : list string) :
  Forall (fun m => model_name_ok m = true) frees ->
  Forall (fun m => model_name_ok m = true) paids ->
  VISION_MODELS_FREE settings = join "," frees ->
  VISION_MODELS_PAID settings = join "," paids ->
  all_models settings
  = (map (fun m => (m, "free")) frees ++ map (fun m => (m, "paid")) paids)%list.
Proof.
  assert (Hml : forall names, Forall (fun m => model_name_ok m = true) names ->
                              model_list (join "," names) = names).
  { intros names Hok. unfold model_list.
    destruct names as [|x rest] eqn:E; [reflexivity|]. rewrite <- E in *.
    rewrite split_join.
    - now apply model_list_keeps.
    - subst names. discriminate.
    - eapply Forall_impl; [|exact Hok].
      intros m Hm. now apply model_name_ok_iff in Hm as (_ & _ & Hm). }
  intros Hf Hp Ef Ep. unfold all_models.
  now rewrite Ef, Ep, (Hml _ Hf), (Hml _ Hp).
Qed.

Lemma all_models_of_joined_names_witness :
  all_models
    (Demo.settings_of
       "google/gemini-2.0-flash-exp:free,meta-llama/llama-4-maverick:free"
       "google/gemini-2.5-flash,openai/gpt-4.1-mini")
  = [("google/gemini-2.0-flash-exp:free", "free");
     ("meta-llama/llama-4-maverick:free", "free");
     ("google/gemini-2.5-flash", "paid");
     ("openai/gpt-4.1-mini", "paid")].
Proof.
  apply (all_models_of_joined_names _
           ["google/gemini-2.0-flash-exp:free"; "meta-llama/llama-4-maverick:free"]
           ["google/gemini-2.5-flash"; "openai/gpt-4.1-mini"]).
  - repeat constructor.
  - repeat constructor.
  - reflexivity.
  - reflexivity.
Defined.

(** ** Outcomes of the orchestrator *)

Lemma accepted_some (o : Outcome) (content : string) :
  accepted o = Some content ->
  exists text, o = Response 200 text (Content content).
Proof.
  destruct o as [sc text body|e]; [|discriminate].
  destruct body as [c|e]; simpl.
  - destruct sc as [|q|q]; try discriminate;
      repeat (destruct q as [q|q|]; try discriminate).
    intros [= ->]. now exists text.
  - destruct sc as [|q|q]; try discriminate;
      repeat (destruct q as [q|q|]; try discriminate).
Qed.

Section Outcomes.

Variable World : Type.
Variable time_time : World -> Q.
Variable post : Request -> World -> Outcome * World.
Variable settings : Settings.

Local Abbreviation try_models := (try_models World time_time post settings).
Local Abbreviation generate_alt_text := (generate_alt_text World time_time post settings).
Local Abbreviation skips := (skips World post settings).
Local Abbreviation prompt a :=
  (_build_system_prompt (language a) (tone a) (wcag_level a) (context a)).

Lemma try_models_rejected_detail sp img m t rest le tr w o w1 :
  post (request settings sp img m) w = (o, w1) ->
  accepted o = None ->
  try_models sp img ((m, t) :: rest) le tr w
  = try_models sp img rest (Some (detail o)) (tr ++ [(m, t)]) w1.
Proof.
  intros Hp Ha. simpl. rewrite Hp.
  destruct o as [sc text body|e]; [|reflexivity].
  simpl. destruct (sc =? 200) eqn:H200.
  - apply Z.eqb_eq in H200. subst sc.
    destruct body; [discriminate Ha | reflexivity].
  - destruct (sc =? 429); reflexivity.
Qed.

Lemma skips_snoc sp img pre m t w w1 o w2 :
  skips sp img pre w w1 ->
  post (request settings sp img m) w1 = (o, w2) ->
  accepted o = None ->
  skips sp img (pre ++ [(m, t)]) w w2.
Proof.
  induction 1 as [w|m' t' pre w o' w1' w2' Hp Ha _ IH]; intros Hp2 Ha2; simpl.
  - eapply skips_cons; [exact Hp2 | exact Ha2 | apply skips_nil].
  - eapply skips_cons; [exact Hp | exact Ha | now apply IH].
Qed.

(** How the loop can end: with a result, at an accepted attempt that
    follows rejected ones, or with a failure, after every candidate was
    attempted and rejected. *)
Lemma try_models_inv sp img models :
  forall le tr w r tried w',
  try_models sp img models le tr w = (r, tried, w') ->
  match r with
  | inr g =>
      exists pre m t rest w1 text content,
        models = (pre ++ (m, t) :: rest)%list
        /\ skips sp img pre w w1
        /\ post (request settings sp img m) w1
           = (Response 200 text (Content content), w')
        /\ tried = (tr ++ pre ++ [(m, t)])%list
        /\ g = {| alt_text := clean_up content;
                  model_used := m;
                  confidence := if String.eqb t "paid" then 0.92%Q else 0.85%Q;
                  carbon_cost := dict_get CARBON_COST_PER_CALL t 1.0%Q;
                  processing_time :=
                    int_of_Q ((time_time w' - time_time w1) * 1000)%Q |}
  | inl e =>
      skips sp img models w w' /\ tried = (tr ++ models)%list
      /\ exists le', e = AllBackendsExhausted le'
                     /\ (models = [] -> le' = le)
  end.
Proof.
  induction models as [|[m t] rest IH]; intros le tr w r tried w' H.
  - simpl in H. inversion H; subst. split; [apply skips_nil|].
    split; [now rewrite app_nil_r|]. now exists le.
  - destruct (post (request settings sp img m) w) as [o w1] eqn:Hp.
    destruct (accepted o) as [content|] eqn:Ha.
    + destruct (accepted_some _ _ Ha) as [text ->].
      rewrite (try_models_accepted World time_time post settings
                 _ _ _ _ _ _ _ _ _ _ _ Hp) in H.
      inversion H; subst.
      exists [], m, t, rest, w, text, content.
      repeat split; [apply skips_nil | exact Hp].
    + rewrite (try_models_rejected_detail _ _ _ _ _ _ _ _ _ _ Hp Ha) in H.
      apply IH in H. destruct r as [e|g].
      * destruct H as (Hs & -> & le' & -> & _).
        split; [eapply skips_cons; eauto|].
        split; [now rewrite <- app_assoc|].
        exists le'. split; [reflexivity | discriminate].
      * destruct H as (pre & m' & t' & rest' & w1' & text & content
                       & -> & Hs & Hp' & -> & ->).
        exists ((m, t) :: pre), m', t', rest', w1', text, content.
        repeat split; auto.
        -- eapply skips_cons; eauto.
        -- now rewrite <- app_assoc.
Qed.

(** The configuration error is raised exactly when the credential is
    empty, before the image arguments are looked at; and whenever
    [generate_alt_text] raises a [ValueError], no attempt has been made and
    the world is as it was. *)
Theorem generate_value_errors (a : Args) (w : World) :
  (fst (fst (generate_alt_text a w)) = inl ConfigurationError
   <-> truthy (OPENROUTER_API_KEY settings) = false)
  /\ (forall msg,
        fst (fst (generate_alt_text a w)) = inl (ValueError msg) ->
        generate_alt_text a w = (inl (ValueError msg), [], w)
        /\ (msg = "OPENROUTER_API_KEY is not configured"
            \/ msg = "Either image_url or image_base64 must be provided")).
Proof.
  unfold Vision.generate_alt_text.
  destruct (truthy (OPENROUTER_API_KEY settings)); cbn [negb].
  - destruct (image_content a) as [img|].
    + destruct (try_models (prompt a) img (all_models settings) None [] w)
        as [[r tried] w'] eqn:E.
      pose proof (try_models_inv _ _ _ _ _ _ _ _ _ E) as Hinv.
      destruct r as [e|g]; cbn [fst].
      * destruct Hinv as (_ & _ & le' & -> & _).
        split; [split; discriminate | intros msg H; discriminate H].
      * split; [split; discriminate | intros msg H; discriminate H].
    + cbn [fst]. split; [split; discriminate|].
      intros msg [= <-]. split; [reflexivity | now right].
  - cbn [fst]. split; [split; reflexivity|].
    intros msg [= <-]. split; [reflexivity | now left].
Qed.

(** When every candidate is attempted and rejected, the failure carries
    the error detail of the last candidate only: the rate-limit text, the
    status and text of another answer, or the message of the exception. *)
Theorem exhausted_carries_last_error
    (a : Args) (w w1 w2 : World) (img m t : string)
    (pre : list (string * string)) (o : Outcome) :
  truthy (OPENROUTER_API_KEY settings) = true ->
  image_content a = Some img ->
  all_models settings = (pre ++ [(m, t)])%list ->
  skips (prompt a) img pre w w1 ->
  post (request settings (prompt a) img m) w1 = (o, w2) ->
  accepted o = None ->
  generate_alt_text a w
  = (inl (AllBackendsExhausted (Some (detail o))), all_models settings, w2).
Proof.
  intros Hk Hi Hall Hs Hp Ha.
  rewrite (generate_configured _ _ _ _ a w img Hk Hi), Hall.
  destruct (try_models_skips World time_time post settings _ _ _ _ _ Hs
              [(m, t)] None []) as [le Hle].
  rewrite Hle.
  now rewrite (try_models_rejected_detail _ _ _ _ _ _ _ _ _ _ Hp Ha).
Qed.

(** Whenever [generate_alt_text] returns a result, it comes from one
    accepted attempt on a configured candidate that follows rejected
    attempts on all the candidates before it; the model, the tier constants
    and the processing time are those of that attempt. *)
Theorem generated_from_accepted_attempt
    (a : Args) (w w' : World) (g : Generated) (tried : list (string * string)) :
  generate_alt_text a w = (inr g, tried, w') ->
  exists img pre t rest w1 text content,
    image_content a = Some img
    /\ all_models settings = (pre ++ (model_used g, t) :: rest)%list
    /\ tried = (pre ++ [(model_used g, t)])%list
    /\ skips (prompt a) img pre w w1
    /\ post (request settings (prompt a) img (model_used g)) w1
       = (Response 200 text (Content content), w')
    /\ alt_text g = clean_up content
    /\ processing_time g = int_of_Q ((time_time w' - time_time w1) * 1000)%Q
    /\ ((t = "free" /\ confidence g = 0.85%Q /\ carbon_cost g = 0.5%Q)
        \/ (t = "paid" /\ confidence g = 0.92%Q /\ carbon_cost g = 2.0%Q)).
Proof.
  unfold Vision.generate_alt_text.
  destruct (negb (truthy (OPENROUTER_API_KEY settings))); [discriminate|].
  destruct (image_content a) as [img|]; [|discriminate].
  intros H. apply try_models_inv in H.
  destruct H as (pre & m & t & rest & w1 & text & content
                 & Hall & Hs & Hp & -> & ->).
  exists img, pre, t, rest, w1, text, content. cbn [model_used alt_text
    processing_time confidence carbon_cost].
  repeat split; auto.
  assert (Ht : In (m, t) (all_models settings))
    by (rewrite Hall; apply in_or_app; right; now left).
  apply all_models_tier in Ht as [-> | ->]; [left | right]; repeat split.
Qed.

(** Whenever [generate_alt_text] raises a [RuntimeError], every candidate
    has been attempted, in order, and each attempt was rejected. *)
Theorem exhausted_after_all_rejected
    (a : Args) (w w' : World) (msg : string) (tried : list (string * string)) :
  generate_alt_text a w = (inl (RuntimeError msg), tried, w') ->
  exists img,
    image_content a = Some img
    /\ tried = all_models settings
    /\ skips (prompt a) img (all_models settings) w w'.
Proof.
  unfold Vision.generate_alt_text.
  destruct (negb (truthy (OPENROUTER_API_KEY settings))); [discriminate|].
  destruct (image_content a) as [img|]; [|discriminate].
  intros H. apply try_models_inv in H. destruct H as (Hs & -> & _).
  exists img. now repeat split.
Qed.

End Outcomes.

Lemma generate_value_errors_witness :
  Demo.run "B" "" None None
  = (inl (ValueError "Either image_url or image_base64 must be provided"), [], 0%Q).
Proof.
  apply (generate_value_errors Demo.World Demo.time_time Demo.post
           (Demo.settings_of "B" "") (Demo.args_of None None) 0%Q).
  reflexivity.
Defined.

Lemma exhausted_carries_last_error_witness :
  Demo.run "A, limited" "" (Some "http://x/y.png") None
  = (inl (RuntimeError
            "All vision models failed. Last error: Rate limited: slow down"),
     [("A", "free"); ("limited", "free")], (0 + 2 + 0.5)%Q).
Proof.
  apply (exhausted_carries_last_error Demo.World Demo.time_time Demo.post
           (Demo.settings_of "A, limited" "")
           (Demo.args_of (Some "http://x/y.png") None)
           0%Q (0 + 2)%Q (0 + 2 + 0.5)%Q "http://x/y.png" "limited" "free"
           [("A", "free")]
           (Response 429 "slow down" (Malformed "Expecting value"))).
  - reflexivity.
  - reflexivity.
  - reflexivity.
  - eapply skips_cons; [reflexivity | reflexivity | apply skips_nil].
  - reflexivity.
  - reflexivity.
Defined.

Lemma generated_from_accepted_attempt_witness :
  exists g tried w',
    Demo.run "A, B" "C" (Some "http://x/y.png") None = (inr g, tried, w')
    /\ exists t rest, (all_models (Demo.settings_of "A, B" "C")
                       = tried ++ rest)%list
                      /\ last tried ("", "") = (model_used g, t).
Proof.
  destruct (Demo.run "A, B" "C" (Some "http://x/y.png") None)
    as [[[e|g] tried] w'] eqn:E; [vm_compute in E; discriminate E|].
  exists g, tried, w'. split; [reflexivity|].
  destruct (generated_from_accepted_attempt Demo.World Demo.time_time Demo.post
              (Demo.settings_of "A, B" "C")
              (Demo.args_of (Some "http://x/y.png") None) 0%Q w' g tried E)
    as (img & pre & t & rest & w1 & text & content
        & _ & Hall & Htried & _).
  exists t, rest. split.
  - rewrite Hall, Htried. now rewrite <- app_assoc.
  - rewrite Htried. apply last_last.
Defined.

Lemma exhausted_after_all_rejected_witness :
  snd (fst (Demo.run "A" "zzz" (Some "http://x/y.png") None))
  = [("A", "free"); ("zzz", "paid")].
Proof.
  destruct (Demo.run "A" "zzz" (Some "http://x/y.png") None)
    as [[[[msg|msg]|g] tried] w'] eqn:E; try (vm_compute in E; discriminate E).
  destruct (exhausted_after_all_rejected Demo.World Demo.time_time Demo.post
              (Demo.settings_of "A" "zzz")
              (Demo.args_of (Some "http://x/y.png") None) 0%Q w' msg tried E)
    as (img & _ & Htried & _).
  exact Htried.
Defined.

(** ** The system prompt *)

(** A tone outside the four known ones gives the prompt of the formal
    tone, and an empty context gives the prompt of no context. *)
Theorem system_prompt_fallbacks (language tone wcag_level : string) :
  (~ In tone ["formal"; "casual"; "technical"; "simple"] ->
   forall context,
     _build_system_prompt language tone wcag_level context
     = _build_system_prompt language "formal" wcag_level context)
  /\ _build_system_prompt language tone wcag_level (Some "")
     = _build_system_prompt language tone wcag_level None.
Proof.
  split; [|reflexivity].
  intros Hn context. unfold _build_system_prompt.
  assert (Ht : dict_get TONE_PROMPTS tone (dict_get TONE_PROMPTS "formal" "")
               = dict_get TONE_PROMPTS "formal" (dict_get TONE_PROMPTS "formal" "")).
  { unfold TONE_PROMPTS. cbn [dict_get].
    destruct (String.eqb tone "formal") eqn:E1;
      [apply String.eqb_eq in E1; exfalso; apply Hn; subst; simpl; tauto|].
    destruct (String.eqb tone "casual") eqn:E2;
      [apply String.eqb_eq in E2; exfalso; apply Hn; subst; simpl; tauto|].
    destruct (String.eqb tone "technical") eqn:E3;
      [apply String.eqb_eq in E3; exfalso; apply Hn; subst; simpl; tauto|].
    destruct (String.eqb tone "simple") eqn:E4;
      [apply String.eqb_eq in E4; exfalso; apply Hn; subst; simpl; tauto|].
    reflexivity. }
  now rewrite Ht.
Qed.

Lemma system_prompt_fallbacks_witness :
  _build_system_prompt "en" "playful" "AA" (Some "shop")
  = _build_system_prompt "en" "formal" "AA" (Some "shop").
Proof.
  apply (system_prompt_fallbacks "en" "playful" "AA").
  simpl. intros [H|[H|[H|[H|[]]]]]; discriminate H.
Defined.

(** ** More on the scorer *)

Lemma lower_length (s : string) : String.length (lower s) = String.length s.
Proof.
  unfold lower. induction s as [|c s IH]; simpl; [reflexivity | now rewrite IH].
Qed.

Lemma generic_excludes (text : string) :
  generic text = true ->
  redundant_prefix text = false /\ filename text = false /\ too_long text = false.
Proof.
  intros H. unfold generic, GENERIC_TERMS in H. cbn [existsb] in H.
  unfold redundant_prefix, filename, too_long.
  rewrite <- (lower_length text).
  repeat (apply orb_true_iff in H as [H|H]); try discriminate H;
    apply String.eqb_eq in H; rewrite H; repeat split.
Qed.

Lemma short_not_long (text : string) :
  too_short text = true -> too_long text = false.
Proof.
  unfold too_short, too_long. intros H.
  apply Nat.ltb_lt in H. apply Nat.ltb_ge. lia.
Qed.

Lemma penalties_le_100 (text : string) : penalties text <= 100.
Proof.
  unfold penalties, pen.
  destruct (generic text) eqn:Hg.
  - destruct (generic_excludes _ Hg) as (-> & -> & ->).
    destruct (too_short text), (all_caps text); lia.
  - destruct (too_short text) eqn:Hs.
    + rewrite (short_not_long _ Hs).
      destruct (redundant_prefix text), (filename text), (all_caps text); lia.
    + destruct (redundant_prefix text), (too_long text), (filename text),
        (all_caps text); lia.
Qed.

Lemma fired_at_most_4 (text : string) : (List.length (fired text) <= 4)%nat.
Proof.
  unfold fired, say.
  destruct (generic text) eqn:Hg.
  - destruct (generic_excludes _ Hg) as (-> & -> & ->).
    destruct (too_short text), (all_caps text); simpl; lia.
  - destruct (too_short text) eqn:Hs.
    + rewrite (short_not_long _ Hs).
      destruct (redundant_prefix text), (filename text), (all_caps text);
        simpl; lia.
    + destruct (redundant_prefix text), (too_long text), (filename text),
        (all_caps text); simpl; lia.
Qed.

(** The penalties of the rules that can hold together never exceed 100, so
    the cut-off at 0 never changes a score: the score of a text that is not
    blank is exactly 100 less its penalties; and no text gets more than four
    issues. *)
Theorem score_is_100_less_penalties
    (text : string) (image_url : option string) (wcag_level : string) :
  let r := analyze_existing_alt_text text image_url wcag_level in
  penalties text <= 100
  /\ (List.length (issues r) <= 4)%nat
  /\ (blank text = false -> score r = 100 - penalties text).
Proof.
  intros r. subst r. pose proof (penalties_le_100 text) as Hp.
  pose proof (fired_at_most_4 text) as Hf.
  split; [exact Hp|]. rewrite <- missing_blank.
  destruct (missing text) eqn:Hm.
  - rewrite (analyze_missing _ _ _ Hm). simpl. split; [lia | discriminate].
  - rewrite (analyze_not_missing _ _ _ Hm). cbv zeta. cbn [score issues].
    split; [|intros _; lia].
    destruct (fired text); simpl in *; lia.
Qed.

Lemma score_is_100_less_penalties_witness :
  blank "IMG.JPG" = false
  /\ penalties "IMG.JPG" = 100
  /\ score (analyze_existing_alt_text "IMG.JPG" None "AAA") = 100 - 100.
Proof.
  split; [reflexivity|]. split; [reflexivity|].
  apply (score_is_100_less_penalties "IMG.JPG" None "AAA"). reflexivity.
Defined.

(** A text that is not blank is rated compliant exactly when it is not too
    short, not generic and holds no file extension, and either has no
    redundant prefix or is neither too long nor all in capitals; and the
    recommendation says the text is acceptable exactly for these texts. *)
Theorem compliant_iff
    (text : string) (image_url : option string) (wcag_level : string) :
  blank text = false ->
  let r := analyze_existing_alt_text text image_url wcag_level in
  (status r = "compliant"
   <-> too_short text = false /\ generic text = false /\ filename text = false
       /\ (redundant_prefix text = false
           \/ (too_long text = false /\ all_caps text = false)))
  /\ (recommendation r = REC_OK <-> status r = "compliant").
Proof.
  intros Hb r. subst r. rewrite <- missing_blank in Hb.
  rewrite (analyze_not_missing _ _ _ Hb). cbv zeta. cbn [status recommendation].
  unfold penalties, pen.
  destruct (redundant_prefix text), (too_short text), (too_long text),
    (generic text), (filename text), (all_caps text);
    vm_compute; (split; split);
    first [ intros; discriminate
          | intros (H1 & H2 & H3 & H4); try discriminate;
            destruct H4 as [H4|[H4 H5]]; discriminate
          | intros; repeat split; auto ].
Qed.

Lemma compliant_iff_witness :
  blank "Image of a red kite over a field" = false
  /\ status (analyze_existing_alt_text "Image of a red kite over a field" None "AAA")
     = "compliant".
Proof.
  assert (Hb : blank "Image of a red kite over a field" = false) by reflexivity.
  split; [exact Hb|].
  pose proof (compliant_iff "Image of a red kite over a field" None "AAA" Hb)
    as [[_ H] _].
  apply H. split; [reflexivity|]. split; [reflexivity|]. split; [reflexivity|].
  right. split; reflexivity.
Defined.

(** For a text that is not blank, the single issue saying that the text
    meets the basic standards stands exactly for a score of 100, which is
    reached exactly when none of the six rules holds. *)
Theorem perfect_score_iff
    (text : string) (image_url : option string) (wcag_level : string) :
  blank text = false ->
  let r := analyze_existing_alt_text text image_url wcag_level in
  (issues r = [MSG_OK] <-> score r = 100)
  /\ (score r = 100
      <-> redundant_prefix text = false /\ too_short text = false
          /\ too_long text = false /\ generic text = false
          /\ filename text = false /\ all_caps text = false).
Proof.
  intros Hb r. subst r. rewrite <- missing_blank in Hb.
  rewrite (analyze_not_missing _ _ _ Hb). cbv zeta. cbn [score issues].
  unfold penalties, pen, fired, say.
  unfold MSG_OK, MSG_PREFIX, MSG_SHORT, MSG_LONG, MSG_GENERIC, MSG_FILENAME,
    MSG_CAPS.
  destruct (redundant_prefix text), (too_short text), (too_long text),
    (generic text), (filename text), (all_caps text);
    cbn; (split; split);
    first [ intros H; discriminate H
          | intros H; exfalso; lia
          | intros (H1 & H2 & H3 & H4 & H5 & H6); discriminate
          | intros; repeat split; reflexivity ].
Qed.

Lemma perfect_score_iff_witness :
  blank "A red kite over a field" = false
  /\ issues (analyze_existing_alt_text "A red kite over a field" None "AAA")
     = [MSG_OK].
Proof.
  split; [reflexivity|].
  apply (perfect_score_iff "A red kite over a field" None "AAA"); reflexivity.
Defined.

(** ** The competitor route *)

Lemma has_alt_not_missing (a : string) :
  truthy a && truthy (strip a) = negb (missing a).
Proof.
  unfold missing. destruct a as [|c a]; [reflexivity|].
  simpl truthy. simpl negb. simpl orb. simpl andb.
  destruct (strip (String c a)); reflexivity.
Qed.

(** The per-image analysis of the competitor route agrees with the scorer
    on every image: quality score and issues are those the scorer gives to
    the [alt] attribute (to the empty text when there is none), although the
    route calls the scorer only when the attribute is not blank; and the
    attribute is reported as present exactly when it is not blank. *)
Theorem competitor_image_agrees_with_scorer (src : string) (alt : option string) :
  let a := match alt with Some a => a | None => "" end in
  let r := Competitor.image_result src alt in
  let s := analyze_existing_alt_text a None "AAA" in
  Competitor.quality_score r = score s
  /\ Competitor.image_issues r = issues s
  /\ Competitor.has_alt r = negb (blank a)
  /\ Competitor.existing_alt r = (if blank a then None else alt).
Proof.
  intros a r s. subst r s. unfold Competitor.image_result.
  assert (Hh : match alt with
               | Some a0 => truthy a0 && truthy (strip a0)
               | None => false
               end = negb (missing a)).
  { subst a. destruct alt as [a0|]; [apply has_alt_not_missing | reflexivity]. }
  rewrite Hh. rewrite <- missing_blank. fold a.
  destruct (missing a) eqn:Hm; simpl.
  - rewrite (analyze_missing _ _ _ Hm). repeat split.
  - repeat split.
Qed.

(** ** The e-commerce route *)

Lemma lower_app (a b : string) : lower (a ++ b) = lower a ++ lower b.
Proof.
  unfold lower. induction a as [|c a IH]; simpl; [reflexivity | now rewrite IH].
Qed.

Lemma prefix_refl (s : string) : String.prefix s s = true.
Proof.
  induction s as [|c s IH]; simpl; [reflexivity|].
  destruct (ascii_dec c c); [exact IH | congruence].
Qed.

Lemma prefix_app_r (p s t : string) :
  String.prefix p s = true -> String.prefix p (s ++ t) = true.
Proof.
  revert s. induction p as [|c p IH]; intros s H;
    [destruct (s ++ t); reflexivity|].
  destruct s as [|d s]; simpl in *; [discriminate H|].
  destruct (ascii_dec c d); [now apply IH | discriminate H].
Qed.

Lemma contains_empty (s : string) : contains "" s = true.
Proof. destruct s; reflexivity. Qed.

Lemma contains_refl (s : string) : contains s s = true.
Proof.
  destruct s as [|c s]; [reflexivity|].
  cbn [contains]. now rewrite prefix_refl.
Qed.

Lemma contains_app_r (sub s t : string) :
  contains sub s = true -> contains sub (s ++ t) = true.
Proof.
  induction s as [|c s IH]; cbn [contains append].
  - destruct sub; [intros _; apply contains_empty | discriminate].
  - intros H. apply orb_true_iff in H as [H|H].
    + change (String c (s ++ t)) with (String c s ++ t).
      now rewrite (prefix_app_r _ _ t H).
    + rewrite (IH H). apply orb_true_r.
Qed.

Lemma contains_app_l (sub a s : string) :
  contains sub s = true -> contains sub (a ++ s) = true.
Proof.
  intros H. induction a as [|c a IH]; cbn [contains append]; [exact H|].
  rewrite IH. apply orb_true_r.
Qed.

Lemma seo_optimize_cases (alt_text product_name category : string) :
  let r := Ecommerce._seo_optimize_alt alt_text product_name category in
  contains alt_text r = true
  /\ contains (lower product_name) (lower r) = true
  /\ (contains (lower category) (lower r) = true \/ category = "General").
Proof.
  intros r. subst r. unfold Ecommerce._seo_optimize_alt.
  destruct (contains (lower product_name) (lower alt_text)) eqn:Hp;
    destruct (contains (lower category) (lower alt_text)) eqn:Hc;
    destruct (String.eqb category "General") eqn:Hg;
    try (apply String.eqb_eq in Hg);
    cbn [negb andb app join]; rewrite ?lower_app;
    (split; [|split]);
    auto using contains_refl, contains_app_r, contains_app_l.
  all: try (left; repeat apply contains_app_l; apply contains_refl).
  all: try (apply contains_app_l, contains_app_r, contains_refl).
Qed.

Lemma seo_optimized_alt_scores_range (alt_text product_name category : string) :
  65 <= Ecommerce._calculate_seo_score
          (Ecommerce._seo_optimize_alt alt_text product_name category)
          product_name category <= 100.
Proof.
  destruct (seo_optimize_cases alt_text product_name category) as (_ & Hp & _).
  unfold Ecommerce._calculate_seo_score. rewrite Hp.
  set (r := Ecommerce._seo_optimize_alt alt_text product_name category).
  destruct (truthy r && (20 <? String.length r)%nat),
    (contains (lower category) (lower r)),
    (String.length r <=? 125)%nat,
    (negb (existsb (startswith r) ["image"; "photo"; "picture"])); lia.
Qed.

(** The optimised alt text always holds the generated alt text as it is and
    the product name whatever its case, and the category too unless the
    category is General; so its SEO score, which lies between 50 and 100
    for every text, is at least 65, and at least 75 for such a category. *)
Theorem seo_optimized_alt_scores (alt_text product_name category : string) :
  let r := Ecommerce._seo_optimize_alt alt_text product_name category in
  contains alt_text r = true
  /\ contains (lower product_name) (lower r) = true
  /\ 65 <= Ecommerce._calculate_seo_score r product_name category <= 100
  /\ (category <> "General" ->
      contains (lower category) (lower r) = true
      /\ 75 <= Ecommerce._calculate_seo_score r product_name category)
  /\ 50 <= Ecommerce._calculate_seo_score alt_text product_name category <= 100.
Proof.
  intros r.
  destruct (seo_optimize_cases alt_text product_name category) as (Ha & Hp & Hc).
  fold r in Ha, Hp, Hc.
  split; [exact Ha|]. split; [exact Hp|].
  split; [|split].
  - unfold Ecommerce._calculate_seo_score. rewrite Hp.
    destruct (truthy r && (20 <? String.length r)%nat),
      (contains (lower category) (lower r)),
      (String.length r <=? 125)%nat,
      (negb (existsb (startswith r) ["image"; "photo"; "picture"])); lia.
  - intros Hne. destruct Hc as [Hc|Hc]; [|contradiction].
    split; [exact Hc|].
    unfold Ecommerce._calculate_seo_score. rewrite Hp, Hc.
    destruct (truthy r && (20 <? String.length r)%nat),
      (String.length r <=? 125)%nat,
      (negb (existsb (startswith r) ["image"; "photo"; "picture"])); lia.
  - unfold Ecommerce._calculate_seo_score.
    destruct (truthy alt_text && (20 <? String.length alt_text)%nat),
      (contains (lower product_name) (lower alt_text)),
      (contains (lower category) (lower alt_text)),
      (String.length alt_text <=? 125)%nat,
      (negb (existsb (startswith alt_text) ["image"; "photo"; "picture"])); lia.
Qed.

Lemma seo_optimized_alt_scores_witness :
  let r := Ecommerce._seo_optimize_alt "A red kite over a field" "Kite" "Toys" in
  r = "A red kite over a field - in Toys"
  /\ contains (lower "Toys") (lower r) = true
  /\ 75 <= Ecommerce._calculate_seo_score r "Kite" "Toys".
Proof.
  split; [reflexivity|].
  apply (seo_optimized_alt_scores "A red kite over a field" "Kite" "Toys").
  discriminate.
Defined.

(** Optimising an already optimised alt text for the same product and
    category changes nothing. *)
Theorem seo_optimize_idempotent (alt_text product_name category : string) :
  let r := Ecommerce._seo_optimize_alt alt_text product_name category in
  Ecommerce._seo_optimize_alt r product_name category = r.
Proof.
  intros r.
  destruct (seo_optimize_cases alt_text product_name category) as (_ & Hp & Hc).
  fold r in Hp, Hc.
  unfold Ecommerce._seo_optimize_alt at 1. rewrite Hp. cbn [negb app].
  destruct Hc as [Hc | ->].
  - rewrite Hc. reflexivity.
  - rewrite andb_false_r. reflexivity.
Qed.

Section ProductFacts.

Variable World : Type.
Variable time_time : World -> Q.
Variable post : Request -> World -> Outcome * World.
Variable settings : Settings.

Local Abbreviation product_images :=
  (Ecommerce.product_images World time_time post settings).

Lemma product_images_from (product_id : Z) (product_name category : string)
    (image_urls : list string) :
  forall idx images w,
  exists new,
    fst (product_images product_id product_name category image_urls idx images w)
    = (images ++ new)%list
    /\ map Ecommerce.id new
       = map (fun k => product_id * 100 + Z.of_nat k)
           (seq idx (List.length image_urls))
    /\ map Ecommerce.product_image_url new = image_urls
    /\ Forall (product_image_ok product_name category) new.
Proof.
  induction image_urls as [|url rest IH]; intros idx images w.
  - exists []. simpl. rewrite app_nil_r. repeat split. constructor.
  - cbn [Ecommerce.product_images].
    destruct (generate_alt_text World time_time post settings
                (Ecommerce.product_args url) w) as [[result tried] w1].
    destruct result as [e|g].
    + match goal with
      | |- context [product_images _ _ _ rest (S idx) (images ++ [?i]) w1] =>
          destruct (IH (S idx) (images ++ [i])%list w1) as (new & H1 & H2 & H3 & H4);
          exists (i :: new)
      end.
      rewrite H1, <- app_assoc. cbn [map seq List.length Ecommerce.id
        Ecommerce.product_image_url app]. rewrite H2, H3.
      repeat split. constructor; [|exact H4]. left. repeat split.
    + match goal with
      | |- context [product_images _ _ _ rest (S idx) (images ++ [?i]) w1] =>
          destruct (IH (S idx) (images ++ [i])%list w1) as (new & H1 & H2 & H3 & H4);
          exists (i :: new)
      end.
      rewrite H1, <- app_assoc. cbn [map seq List.length Ecommerce.id
        Ecommerce.product_image_url app]. rewrite H2, H3.
      repeat split. constructor; [|exact H4]. right.
      exists (alt_text g).
      cbn [Ecommerce.generated_alt Ecommerce.seo_optimized_alt
           Ecommerce.wcag_score Ecommerce.seo_score].
      split; [reflexivity|]. split; [reflexivity|]. split.
      * destruct (20 <? String.length (alt_text g))%nat; auto.
      * apply (seo_optimized_alt_scores_range (alt_text g) product_name category).
Qed.

(** The images that [add_product] collects: one per URL, in the order of
    the URLs, numbered from the product identifier times 100; each is either
    a failed generation, with no alt text and both scores 0, or a generated
    one with its optimised alt text, a WCAG score of 85 or 50 and an SEO
    score of at least 65. *)
Theorem add_product_images (product_id : Z) (product_name category : string)
    (image_urls : list string) (w : World) :
  let images :=
    fst (product_images product_id product_name category image_urls 0 [] w) in
  map Ecommerce.product_image_url images = image_urls
  /\ map Ecommerce.id images
     = map (fun k => product_id * 100 + Z.of_nat k)
         (seq 0 (List.length image_urls))
  /\ Forall (product_image_ok product_name category) images.
Proof.
  intros images. subst images.
  destruct (product_images_from product_id product_name category image_urls
              0%nat [] w) as (new & H1 & H2 & H3 & H4).
  rewrite H1. simpl. auto.
Qed.

End ProductFacts.

(** ** The bulk route *)

Lemma score_in_range (text : string) (u : option string) (l : string) :
  0 <= score (analyze_existing_alt_text text u l) <= 100.
Proof.
  pose proof (penalties_nonneg text).
  destruct (missing text) eqn:Hm.
  - rewrite (analyze_missing _ _ _ Hm). simpl. lia.
  - rewrite (analyze_not_missing _ _ _ Hm). cbv zeta. cbn [score]. lia.
Qed.

Section BulkFacts.

Variable World : Type.
Variable time_time : World -> Q.
Variable post : Request -> World -> Outcome * World.
Variable settings : Settings.
Variable b64encode : string -> string.

Local Abbreviation process_files :=
  (Bulk.process_files World time_time post settings b64encode).
Local Abbreviation start_bulk_processing :=
  (Bulk.start_bulk_processing World time_time post settings b64encode).

Lemma process_files_from (files : list Bulk.UploadFile)
    (language tone wcag_level : string) :
  forall idx results errors current_user w,
  let r := process_files files language tone wcag_level idx results errors
             current_user w in
  exists new,
    fst (fst (fst r)) = (results ++ new)%list
    /\ map Bulk.image_index new = map Z.of_nat (seq idx (List.length files))
    /\ snd (fst (fst r)) = errors + Z.of_nat (List.length (filter is_error new))
    /\ Bulk.monthly_usage (snd (fst r))
       = Bulk.monthly_usage current_user + Z.of_nat (List.length files)
         - Z.of_nat (List.length (filter is_error new))
    /\ Bulk.tier (snd (fst r)) = Bulk.tier current_user
    /\ Forall (item_ok wcag_level) new.
Proof.
  induction files as [|file rest IH]; intros idx results errors current_user w r.
  - exists []. subst r. simpl. rewrite app_nil_r.
    repeat split; try lia. constructor.
  - subst r. cbn [Bulk.process_files].
    destruct (Bulk.read file) as [e|content].
    + destruct (IH (S idx) (results ++ [Bulk.failed_item idx file e])%list
                  (errors + 1) current_user w)
        as (new & H1 & H2 & H3 & H4 & H5 & H6).
      exists (Bulk.failed_item idx file e :: new).
      rewrite H1, H3, H4, H5, <- app_assoc.
      cbn [map seq List.length filter is_error Bulk.failed_item Bulk.error Bulk.image_index app].
      rewrite H2. repeat split; try lia.
      constructor; [|exact H6]. unfold item_ok. simpl. repeat split.
    + destruct (generate_alt_text World time_time post settings
                  (Bulk.file_args b64encode file content language tone wcag_level) w)
        as [[generated tried] w1].
      destruct generated as [e|g].
      * destruct (IH (S idx)
                    (results ++ [Bulk.failed_item idx file (str_of_exn e)])%list
                    (errors + 1) current_user w1)
          as (new & H1 & H2 & H3 & H4 & H5 & H6).
        exists (Bulk.failed_item idx file (str_of_exn e) :: new).
        rewrite H1, H3, H4, H5, <- app_assoc.
        cbn [map seq List.length filter is_error Bulk.failed_item Bulk.error Bulk.image_index app].
        rewrite H2. repeat split; try lia.
        constructor; [|exact H6]. unfold item_ok. simpl. repeat split.
      * match goal with
        | |- context [process_files rest _ _ _ (S idx) (results ++ [?i]) errors ?u w1] =>
            destruct (IH (S idx) (results ++ [i])%list errors u w1)
              as (new & H1 & H2 & H3 & H4 & H5 & H6);
            exists (i :: new)
        end.
        rewrite H1, H3, H4, H5, <- app_assoc.
        cbn [map seq List.length filter is_error Bulk.error Bulk.image_index app
             Bulk.monthly_usage Bulk.tier].
        rewrite H2. repeat split; try lia.
        constructor; [|exact H6]. unfold item_ok.
        cbn [Bulk.error Bulk.item_alt_text Bulk.item_confidence Bulk.item_wcag_score
             Bulk.processing_time_ms].
        eexists _, _, _, _. repeat split; apply score_in_range.
Qed.

Lemma start_bulk_inv
    (limits : Bulk.Limits) (files : list Bulk.UploadFile)
    (language tone wcag_level : string) (current_user user' : Bulk.User)
    (w w' : World) (results : list Bulk.BulkJobItemResult) (errors : Z) :
  start_bulk_processing limits files language tone wcag_level current_user w
  = (inr (results, errors), user', w') ->
  Bulk.check_limits limits current_user files = None
  /\ List.length results = List.length files
  /\ map Bulk.image_index results = map Z.of_nat (seq 0 (List.length files))
  /\ errors = Z.of_nat (List.length (filter is_error results))
  /\ 0 <= errors <= Z.of_nat (List.length files)
  /\ Bulk.monthly_usage user'
     = Bulk.monthly_usage current_user + (Z.of_nat (List.length results) - errors)
  /\ Bulk.tier user' = Bulk.tier current_user
  /\ Forall (item_ok wcag_level) results.
Proof.
  unfold Bulk.start_bulk_processing.
  destruct (Bulk.check_limits limits current_user files); [discriminate|].
  pose proof (process_files_from files language tone wcag_level
                0%nat [] 0 current_user w) as (new & H1 & H2 & H3 & H4 & H5 & H6).
  cbv zeta in *.
  destruct (process_files files language tone wcag_level 0 [] 0 current_user w)
    as [[[rs es] u] w1].
  cbn [fst snd app] in *. intros [= <- <- <- <-]. subst rs es.
  assert (Hlen : List.length new = List.length files).
  { rewrite <- (length_map Bulk.image_index new), H2, length_map. apply length_seq. }
  pose proof (filter_length_le is_error new) as Hle.
  rewrite Hlen in *. repeat split; auto; lia.
Qed.


(** A bulk run that is not refused never takes a batch above the batch
    limit and never takes a free-tier user above the monthly limit. *)
Theorem bulk_stays_within_limits
    (limits : Bulk.Limits) (files : list Bulk.UploadFile)
    (language tone wcag_level : string) (current_user user' : Bulk.User)
    (w w' : World) (results : list Bulk.BulkJobItemResult) (errors : Z) :
  start_bulk_processing limits files language tone wcag_level current_user w
  = (inr (results, errors), user', w') ->
  Z.of_nat (List.length files) <= Bulk.BULK_MAX_IMAGES limits
  /\ (Bulk.tier current_user = "free" ->
      Bulk.monthly_usage user' <= Bulk.FREE_TIER_MONTHLY_LIMIT limits).
Proof.
  intros H.
  apply start_bulk_inv in H as (Hc & Hlen & _ & _ & Herr & Huse & _).
  unfold Bulk.check_limits in Hc.
  destruct (Bulk.BULK_MAX_IMAGES limits <? Z.of_nat (List.length files)) eqn:Hmax;
    [discriminate|].
  apply Z.ltb_ge in Hmax. split; [exact Hmax|].
  intros Ht. rewrite Ht in Hc. simpl in Hc.
  destruct (Bulk.FREE_TIER_MONTHLY_LIMIT limits - Bulk.monthly_usage current_user <=? 0);
    [discriminate|].
  destruct (Bulk.FREE_TIER_MONTHLY_LIMIT limits - Bulk.monthly_usage current_user
            <? Z.of_nat (List.length files)) eqn:Hrem; [discriminate|].
  apply Z.ltb_ge in Hrem. lia.
Qed.



End BulkFacts.


Lemma bulk_stays_within_limits_witness :
  exists x user' w',
    DemoRoutes.bulk "B" ""
      [DemoRoutes.png "a.png"; DemoRoutes.png "b.png"; DemoRoutes.png "c.png"]
      (DemoRoutes.free_user 47)
    = (inr x, user', w')
    /\ Bulk.monthly_usage user' <= 50.
Proof.
  destruct (DemoRoutes.bulk "B" ""
              [DemoRoutes.png "a.png"; DemoRoutes.png "b.png"; DemoRoutes.png "c.png"]
              (DemoRoutes.free_user 47)) as [[[e|[results errors]] user'] w'] eqn:E;
    [vm_compute in E; discriminate E|].
  exists (results, errors), user', w'. split; [reflexivity|].
  destruct (bulk_stays_within_limits _ _ _ _ _ _ _ _ _ _ _ _ _ _ _ _ E) as [_ H].
  apply H. reflexivity.
Defined.


